(** * envload: field resolution and type conversion (src/env.go)

  A shallow embedding of [populateStruct] and of the converters it
  dispatches to, together with the parts of Go's [strings], [strconv] and
  [reflect] packages that the code calls.

  Conventions.
  - A Go [string] is a Rocq [string] (a sequence of bytes).
  - A Go [map[string]T] is a [gmap string T]; [m[k]] with the comma-ok
    form is [m !! k].
  - The destination struct is a list of slots, one per field, in
    declaration order; [value.Field(i)] is the slot of index [i] and a
    [Set...] on it is [<[i:=x]>].
  - A Go [error] result is an [option error], [None] being [nil]; an error
    built with [fmt.Errorf] is a constructor that holds what the message
    is formatted from.
  - Sized integers are [Z] with the wrap-around written out.
  - Field types are the predeclared types, [time.Duration], and slices
    and maps; a run-time panic of [reflect] (storing a [[]string] in a
    slice of a defined string type, say) is outside the model. *)

From Stdlib Require Import ZArith Ascii String.
From stdpp Require Import gmap strings list.

Local Open Scope string_scope.
Local Open Scope Z_scope.

(** ** Package [strings] *)

Module gostrings.

(** [asciiSpace] of strings.go: the bytes '\t', '\n', '\v', '\f', '\r'
    and ' '. *)
Definition asciiSpace (c : ascii) : bool :=
  let n := N_of_ascii c in
  ((9 <=? n) && (n <=? 13))%N || (n =? 32)%N.

Fixpoint TrimLeft (s : string) : string :=
  match s with
  | String c s' => if asciiSpace c then TrimLeft s' else s
  | EmptyString => EmptyString
  end.

Fixpoint TrimRight (s : string) : string :=
  match s with
  | String c s' =>
      match TrimRight s' with
      | EmptyString => if asciiSpace c then EmptyString else String c EmptyString
      | t => String c t
      end
  | EmptyString => EmptyString
  end.

(** [strings.TrimSpace] on its byte path: leading and trailing
    [asciiSpace] bytes are removed.  (On bytes >= 0x80 Go switches to the
    Unicode white-space table; here such bytes are kept.) *)
Definition TrimSpace (s : string) : string := TrimRight (TrimLeft s).

(** [strings.Cut] for a one-byte separator: the text before and after the
    first occurrence of [sep], if there is one. *)
Fixpoint Cut (s : string) (sep : ascii) : option (string * string) :=
  match s with
  | EmptyString => None
  | String c s' =>
      if Ascii.eqb c sep then Some (EmptyString, s')
      else match Cut s' sep with
           | Some (before, after) => Some (String c before, after)
           | None => None
           end
  end.

(** [strings.Split(s, sep)] for a one-byte separator: every occurrence
    of [sep] ends a part, so the result has one part more than there are
    separators (and is never empty). *)
Fixpoint Split (s : string) (sep : ascii) : list string :=
  match s with
  | EmptyString => [EmptyString]
  | String c s' =>
      if Ascii.eqb c sep then EmptyString :: Split s' sep
      else match Split s' sep with
           | part :: parts => String c part :: parts
           | [] => [String c EmptyString]
           end
  end.

(** [strings.SplitN(s, sep, 2)] for a one-byte separator: at most two
    parts, the second being the unsplit remainder. *)
Definition SplitN2 (s : string) (sep : ascii) : list string :=
  match Cut s sep with
  | Some (before, after) => [before; after]
  | None => [s]
  end.

End gostrings.

(** ** Package [strconv] *)

Module strconv.

(** The [Err] of a [*NumError]. *)
Inductive NumError := ErrSyntax | ErrRange | ErrBitSize.

Definition IntSize : Z := 64.
Definition maxUint64 : Z := 2 ^ 64 - 1.

Definition digit (c : ascii) : option Z :=
  let n := Z.of_N (N_of_ascii c) in
  if (48 <=? n) && (n <=? 57) then Some (n - 48) else None.

(** The digit loop of [ParseUint] in base 10; [n] is the accumulator, a
    [uint64].  A letter has a digit value of at least 10 and is refused
    like any other byte, and '_' is accepted in base 0 only. *)
Fixpoint parseDigits (s : string) (cutoff maxVal n : Z) : Z * option NumError :=
  match s with
  | EmptyString => (n, None)
  | String c s' =>
      match digit c with
      | None => (0, Some ErrSyntax)
      | Some d =>
          if cutoff <=? n then (maxVal, Some ErrRange)
          else
            let n10 := n * 10 in
            let n1 := (n10 + d) mod 2 ^ 64 in
            if (n1 <? n10) || (maxVal <? n1) then (maxVal, Some ErrRange)
            else parseDigits s' cutoff maxVal n1
      end
  end.

(** [strconv.ParseUint(s, 10, bitSize)]. *)
Definition ParseUint (s : string) (bitSize : Z) : Z * option NumError :=
  if String.eqb s "" then (0, Some ErrSyntax)
  else
    let bitSize := if bitSize =? 0 then IntSize else bitSize in
    if (bitSize <? 0) || (64 <? bitSize) then (0, Some ErrBitSize)
    else
      let cutoff := maxUint64 / 10 + 1 in
      let maxVal := 2 ^ bitSize - 1 in
      parseDigits s cutoff maxVal 0.

(** Conversion of a [uint64] bit pattern to [int64]. *)
Definition int64 (n : Z) : Z := (n + 2 ^ 63) mod 2 ^ 64 - 2 ^ 63.

(** [strconv.ParseInt(s, 10, bitSize)]. *)
Definition ParseInt (s : string) (bitSize : Z) : Z * option NumError :=
  match s with
  | EmptyString => (0, Some ErrSyntax)
  | String c s' =>
      let '(neg, digits) :=
        if Ascii.eqb c "+" then (false, s')
        else if Ascii.eqb c "-" then (true, s')
        else (false, s) in
      let '(un, err) := ParseUint digits bitSize in
      match err with
      | Some ErrSyntax => (0, Some ErrSyntax)
      | Some ErrBitSize => (0, Some ErrBitSize)
      | _ =>
          let bitSize := if bitSize =? 0 then IntSize else bitSize in
          let cutoff := 2 ^ (bitSize - 1) in
          if negb neg && (cutoff <=? un) then (cutoff - 1, Some ErrRange)
          else if neg && (cutoff <? un) then (- cutoff, Some ErrRange)
          else
            let n := int64 un in
            (if neg then int64 (- n) else n, None)
      end
  end.

(** [strconv.ParseBool]. *)
Definition ParseBool (str : string) : bool * option NumError :=
  if existsb (String.eqb str) ["1"; "t"; "T"; "true"; "TRUE"; "True"]
  then (true, None)
  else if existsb (String.eqb str) ["0"; "f"; "F"; "false"; "FALSE"; "False"]
  then (false, None)
  else (false, Some ErrSyntax).

End strconv.

(** ** Package [reflect] *)

Module reflect.

Inductive Kind :=
| Invalid | Bool
| Int | Int8 | Int16 | Int32 | Int64
| Uint | Uint8 | Uint16 | Uint32 | Uint64 | Uintptr
| Float32 | Float64 | Complex64 | Complex128
| Array | Chan | Func | Interface | Map | Pointer | Slice | String | Struct
| UnsafePointer.

#[global] Instance Kind_eq_dec : EqDecision Kind.
Proof. solve_decision. Defined.

(** A Go type, as far as the code inspects one: its kind, package path and
    name, and for a slice or a map its element and key types.  [Basic]
    stands for every type whose kind is neither [Slice] nor [Map]. *)
Inductive Type_ :=
| Basic (kind : Kind) (pkgPath name : string)
| SliceOf (elem : Type_)
| MapOf (key elem : Type_).

Definition kind (t : Type_) : Kind :=
  match t with
  | Basic k _ _ => k
  | SliceOf _ => Slice
  | MapOf _ _ => Map
  end.

Definition PkgPath (t : Type_) : string :=
  match t with Basic _ p _ => p | _ => EmptyString end.

Definition Name (t : Type_) : string :=
  match t with Basic _ _ n => n | _ => EmptyString end.

Definition Elem (t : Type_) : Type_ :=
  match t with
  | SliceOf e | MapOf _ e => e
  | Basic _ _ _ => Basic Invalid EmptyString EmptyString
  end.

Definition Key (t : Type_) : Type_ :=
  match t with
  | MapOf k _ => k
  | _ => Basic Invalid EmptyString EmptyString
  end.

(** [Type.Bits] for the sized kinds, on a 64-bit platform. *)
Definition Bits (t : Type_) : Z :=
  match kind t with
  | Int8 | Uint8 => 8
  | Int16 | Uint16 => 16
  | Int32 | Uint32 | Float32 => 32
  | Int | Int64 | Uint | Uint64 | Uintptr | Float64 | Complex64 => 64
  | Complex128 => 128
  | _ => 0
  end.

(** A struct tag: its key/value pairs in the order they are written. *)
Definition StructTag := list (string * string).

(** [StructTag.Get]: the value of the first pair with that key, or the
    empty string. *)
Fixpoint Get (tag : StructTag) (key : string) : string :=
  match tag with
  | [] => EmptyString
  | (k, v) :: tag' => if String.eqb k key then v else Get tag' key
  end.

(** [reflect.StructField]; the package path of a field is empty exactly
    when the field is exported. *)
Record StructField := {
  FieldName : string;
  FieldPkgPath : string;
  FieldType : Type_;
  Tag : StructTag;
}.

End reflect.

(** ** Values *)

(** The bits kept when an integer is stored in a signed, respectively
    unsigned, slot of [bits] bits. *)
Definition wrapInt (bits x : Z) : Z :=
  (x + 2 ^ (bits - 1)) mod 2 ^ bits - 2 ^ (bits - 1).

Definition wrapUint (bits x : Z) : Z := x mod 2 ^ bits.

(** Floating-point numbers and durations are parsed by the Go library; the
    development is parametric in these functions.  [zeroFloat] is the zero
    value of the float types and [roundFloat bits x] the conversion of a
    [float64] to a float of [bits] bits. *)
Class GoLib := {
  float64 : Type;
  zeroFloat : float64;
  ParseFloat : string -> Z -> float64 * option strconv.NumError;
  roundFloat : Z -> float64 -> float64;
  ParseDuration : string -> option Z;
}.

Section Envload.

Context `{GoLib}.

Inductive scalar :=
| SString (s : string)
| SInt (n : Z)
| SUint (n : Z)
| SFloat (x : float64)
| SBool (b : bool).

(** The content of a field's storage slot.  [Nil] is the zero value of a
    slice or map type, and of any type the code does not convert. *)
Inductive Value :=
| Scalar (x : scalar)
| SliceV (elems : list scalar)
| MapV (m : gmap string scalar)
| Nil.

(** The destination struct's slots. *)
Definition Struct := list Value.

(** The error of [convertMapValue]: the parser's, or the sentinel
    [errUnsupportedMapValueType] with the kind it was raised for. *)
Inductive mapValueError :=
| NumErr (e : strconv.NumError)
| errUnsupportedMapValueType (k : reflect.Kind).

(** The errors of [populateStruct]: the sentinels of env.go under their
    names, and one constructor per [fmt.Errorf] of a converter ("invalid
    int for field ...", "invalid int in slice for field ... at index ...",
    "invalid map value for field ... key ...", and so on). *)
Inductive error :=
| errTargetMustBePointer
| errTargetMustBePointerToStruct
| errMissingRequiredField (field env : string)
| InvalidDuration (field : string)
| InvalidInt (field : string) (cause : strconv.NumError)
| InvalidUint (field : string) (cause : strconv.NumError)
| InvalidFloat (field : string) (cause : strconv.NumError)
| InvalidBool (field : string) (cause : strconv.NumError)
| InvalidIntInSlice (field : string) (index : nat) (cause : strconv.NumError)
| InvalidUintInSlice (field : string) (index : nat) (cause : strconv.NumError)
| InvalidFloatInSlice (field : string) (index : nat) (cause : strconv.NumError)
| InvalidBoolInSlice (field : string) (index : nat) (cause : strconv.NumError)
| errInvalidMapFormat (field pair : string)
| InvalidMapValue (field key : string) (cause : mapValueError).

(** What a loop body hands back: the value built so far, or the error the
    enclosing function returns with. *)
Inductive loopResult (A : Type) :=
| Ok (a : A)
| Err (e : error).
Arguments Ok {A} a.
Arguments Err {A} e.

(** [fieldResolver]: [value] is the index of the field's slot. *)
Record fieldResolver := {
  field : reflect.StructField;
  value : nat;
  rawValue : string;
}.

Definition fieldType (resolver : fieldResolver) : reflect.Type_ :=
  reflect.FieldType (field resolver).

Definition fieldName (resolver : fieldResolver) : string :=
  reflect.FieldName (field resolver).

(** [Value.CanSet] on a field reached through a pointer to the struct:
    the field is exported. *)
Definition CanSet (resolver : fieldResolver) : bool :=
  String.eqb (reflect.FieldPkgPath (field resolver)) "".

(** [Value.Set] and its typed variants on the resolver's slot. *)
Definition Set_ (resolver : fieldResolver) (x : Value) (s : Struct) : Struct :=
  <[value resolver := x]> s.

Definition SetInt (bits x : Z) : scalar := SInt (wrapInt bits x).
Definition SetUint (bits x : Z) : scalar := SUint (wrapUint bits x).
Definition SetFloat (bits : Z) (x : float64) : scalar := SFloat (roundFloat bits x).

(** ** Scalar converters *)

Definition setString (resolver : fieldResolver) (s : Struct) : Struct * option error :=
  (Set_ resolver (Scalar (SString (rawValue resolver))) s, None).

(** [time.ParseDuration] yields an [int64] count of nanoseconds. *)
Definition setDuration (resolver : fieldResolver) (s : Struct) : Struct * option error :=
  match ParseDuration (rawValue resolver) with
  | None => (s, Some (InvalidDuration (fieldName resolver)))
  | Some dur =>
      (Set_ resolver (Scalar (SetInt (reflect.Bits (fieldType resolver)) dur)) s, None)
  end.

Definition setInt (resolver : fieldResolver) (s : Struct) : Struct * option error :=
  let bits := reflect.Bits (fieldType resolver) in
  let '(intVal, err) := strconv.ParseInt (rawValue resolver) bits in
  match err with
  | Some e => (s, Some (InvalidInt (fieldName resolver) e))
  | None => (Set_ resolver (Scalar (SetInt bits intVal)) s, None)
  end.

Definition setIntOrDuration (resolver : fieldResolver) (s : Struct) : Struct * option error :=
  if String.eqb (reflect.PkgPath (fieldType resolver)) "time"
     && String.eqb (reflect.Name (fieldType resolver)) "Duration"
  then setDuration resolver s
  else setInt resolver s.

Definition setUint (resolver : fieldResolver) (s : Struct) : Struct * option error :=
  let bits := reflect.Bits (fieldType resolver) in
  let '(uintVal, err) := strconv.ParseUint (rawValue resolver) bits in
  match err with
  | Some e => (s, Some (InvalidUint (fieldName resolver) e))
  | None => (Set_ resolver (Scalar (SetUint bits uintVal)) s, None)
  end.

Definition setFloat (resolver : fieldResolver) (s : Struct) : Struct * option error :=
  let bits := reflect.Bits (fieldType resolver) in
  let '(floatVal, err) := ParseFloat (rawValue resolver) bits in
  match err with
  | Some e => (s, Some (InvalidFloat (fieldName resolver) e))
  | None => (Set_ resolver (Scalar (SetFloat bits floatVal)) s, None)
  end.

Definition setBool (resolver : fieldResolver) (s : Struct) : Struct * option error :=
  let '(boolVal, err) := strconv.ParseBool (rawValue resolver) in
  match err with
  | Some e => (s, Some (InvalidBool (fieldName resolver) e))
  | None => (Set_ resolver (Scalar (SBool boolVal)) s, None)
  end.

(** ** Slice converters *)

(** The filter at the head of the four typed slice setters: the parts
    other than the empty string, in order. *)
Definition validParts (parts : list string) : list string :=
  filter (fun part => part <> "") parts.

(** The loop [for i, part := range validParts] of the typed slice setters:
    [parse i part] is the body's conversion, whose error ends the function,
    and [slice.Index(i)] receives the converted element. *)
Fixpoint rangeParts (parse : nat -> string -> loopResult scalar)
    (parts : list string) (i : nat) (slice : list scalar) : loopResult (list scalar) :=
  match parts with
  | [] => Ok slice
  | part :: rest =>
      match parse i part with
      | Err e => Err e
      | Ok x => rangeParts parse rest (S i) (<[i := x]> slice)
      end
  end.

(** [reflect.MakeSlice(t, n, n)]: [n] zero elements. *)
Definition MakeSlice (zero : scalar) (n : nat) : list scalar := replicate n zero.

Definition setIntSlice (resolver : fieldResolver) (parts : list string) (s : Struct)
    : Struct * option error :=
  let elemType := reflect.Elem (fieldType resolver) in
  let validParts := validParts parts in
  let slice := MakeSlice (SInt 0) (length validParts) in
  match rangeParts (fun i part =>
          let '(intVal, err) := strconv.ParseInt part (reflect.Bits elemType) in
          match err with
          | Some e => Err (InvalidIntInSlice (fieldName resolver) i e)
          | None => Ok (SetInt (reflect.Bits elemType) intVal)
          end) validParts 0 slice with
  | Err e => (s, Some e)
  | Ok slice => (Set_ resolver (SliceV slice) s, None)
  end.

Definition setUintSlice (resolver : fieldResolver) (parts : list string) (s : Struct)
    : Struct * option error :=
  let elemType := reflect.Elem (fieldType resolver) in
  let validParts := validParts parts in
  let slice := MakeSlice (SUint 0) (length validParts) in
  match rangeParts (fun i part =>
          let '(uintVal, err) := strconv.ParseUint part (reflect.Bits elemType) in
          match err with
          | Some e => Err (InvalidUintInSlice (fieldName resolver) i e)
          | None => Ok (SetUint (reflect.Bits elemType) uintVal)
          end) validParts 0 slice with
  | Err e => (s, Some e)
  | Ok slice => (Set_ resolver (SliceV slice) s, None)
  end.

Definition setFloatSlice (resolver : fieldResolver) (parts : list string) (s : Struct)
    : Struct * option error :=
  let elemType := reflect.Elem (fieldType resolver) in
  let validParts := validParts parts in
  let slice := MakeSlice (SFloat zeroFloat) (length validParts) in
  match rangeParts (fun i part =>
          let '(floatVal, err) := ParseFloat part (reflect.Bits elemType) in
          match err with
          | Some e => Err (InvalidFloatInSlice (fieldName resolver) i e)
          | None => Ok (SetFloat (reflect.Bits elemType) floatVal)
          end) validParts 0 slice with
  | Err e => (s, Some e)
  | Ok slice => (Set_ resolver (SliceV slice) s, None)
  end.

Definition setBoolSlice (resolver : fieldResolver) (parts : list string) (s : Struct)
    : Struct * option error :=
  let validParts := validParts parts in
  let slice := MakeSlice (SBool false) (length validParts) in
  match rangeParts (fun i part =>
          let '(boolVal, err) := strconv.ParseBool part in
          match err with
          | Some e => Err (InvalidBoolInSlice (fieldName resolver) i e)
          | None => Ok (SBool boolVal)
          end) validParts 0 slice with
  | Err e => (s, Some e)
  | Ok slice => (Set_ resolver (SliceV slice) s, None)
  end.

Definition setSlice (resolver : fieldResolver) (s : Struct) : Struct * option error :=
  let elemKind := reflect.kind (reflect.Elem (fieldType resolver)) in
  let parts := gostrings.Split (rawValue resolver) "," in
  let parts := gostrings.TrimSpace <$> parts in
  match elemKind with
  | reflect.String => (Set_ resolver (SliceV (SString <$> parts)) s, None)
  | reflect.Int | reflect.Int8 | reflect.Int16 | reflect.Int32 | reflect.Int64 =>
      setIntSlice resolver parts s
  | reflect.Uint | reflect.Uint8 | reflect.Uint16 | reflect.Uint32 | reflect.Uint64 =>
      setUintSlice resolver parts s
  | reflect.Float32 | reflect.Float64 => setFloatSlice resolver parts s
  | reflect.Bool => setBoolSlice resolver parts s
  | _ => (s, None)
  end.

(** ** Map converter *)

Definition keyValueSeparatorLimit : nat := 2.

Definition convertMapValue (resolver : fieldResolver) (value : string)
    (valueKind : reflect.Kind) : scalar + mapValueError :=
  let elemType := reflect.Elem (fieldType resolver) in
  match valueKind with
  | reflect.String => inl (SString value)
  | reflect.Int | reflect.Int8 | reflect.Int16 | reflect.Int32 | reflect.Int64 =>
      let '(intVal, err) := strconv.ParseInt value 64 in
      match err with
      | Some e => inr (NumErr e)
      | None => inl (SInt (wrapInt (reflect.Bits elemType) intVal))
      end
  | reflect.Uint | reflect.Uint8 | reflect.Uint16 | reflect.Uint32 | reflect.Uint64 =>
      let '(uintVal, err) := strconv.ParseUint value 64 in
      match err with
      | Some e => inr (NumErr e)
      | None => inl (SUint (wrapUint (reflect.Bits elemType) uintVal))
      end
  | reflect.Float32 | reflect.Float64 =>
      let '(floatVal, err) := ParseFloat value 64 in
      match err with
      | Some e => inr (NumErr e)
      | None => inl (SFloat (roundFloat (reflect.Bits elemType) floatVal))
      end
  | reflect.Bool =>
      let '(boolVal, err) := strconv.ParseBool value in
      match err with
      | Some e => inr (NumErr e)
      | None => inl (SBool boolVal)
      end
  | _ => inr (errUnsupportedMapValueType valueKind)
  end.

(** The body of the loop [for _, pair := range pairs] of [setMap], up to
    the conversion: the trimmed key and the converted value of one pair
    token, or the error [setMap] returns with. *)
Definition parsePair (resolver : fieldResolver) (valueKind : reflect.Kind)
    (pair_ : string) : loopResult (string * scalar) :=
  let kv := gostrings.SplitN2 (gostrings.TrimSpace pair_) ":" in
  if negb (length kv =? keyValueSeparatorLimit)%nat then
    Err (errInvalidMapFormat (fieldName resolver) pair_)
  else
    let key := gostrings.TrimSpace (nth 0 kv "") in
    let value := gostrings.TrimSpace (nth 1 kv "") in
    match convertMapValue resolver value valueKind with
    | inr err => Err (InvalidMapValue (fieldName resolver) key err)
    | inl convertedValue => Ok (key, convertedValue)
    end.

(** The loop itself; [result] is the map under construction and
    [SetMapIndex] is an insertion. *)
Fixpoint rangePairs (resolver : fieldResolver) (valueKind : reflect.Kind)
    (pairs : list string) (result : gmap string scalar) : loopResult (gmap string scalar) :=
  match pairs with
  | [] => Ok result
  | pair_ :: rest =>
      match parsePair resolver valueKind pair_ with
      | Err e => Err e
      | Ok (key, convertedValue) =>
          rangePairs resolver valueKind rest (<[key := convertedValue]> result)
      end
  end.

Definition setMap (resolver : fieldResolver) (s : Struct) : Struct * option error :=
  let keyKind := reflect.kind (reflect.Key (fieldType resolver)) in
  let valueKind := reflect.kind (reflect.Elem (fieldType resolver)) in
  if negb (bool_decide (keyKind = reflect.String)) then (s, None)
  else
    let pairs := gostrings.Split (rawValue resolver) "," in
    match rangePairs resolver valueKind pairs ∅ with
    | Err e => (s, Some e)
    | Ok result => (Set_ resolver (MapV result) s, None)
    end.

(** ** Dispatch *)

Definition setValue (resolver : fieldResolver) (s : Struct) : Struct * option error :=
  match reflect.kind (fieldType resolver) with
  | reflect.String => setString resolver s
  | reflect.Int | reflect.Int8 | reflect.Int16 | reflect.Int32 | reflect.Int64 =>
      setIntOrDuration resolver s
  | reflect.Uint | reflect.Uint8 | reflect.Uint16 | reflect.Uint32 | reflect.Uint64 =>
      setUint resolver s
  | reflect.Float32 | reflect.Float64 => setFloat resolver s
  | reflect.Bool => setBool resolver s
  | reflect.Slice => setSlice resolver s
  | reflect.Map => setMap resolver s
  | _ => (s, None)
  end.

(** ** Field resolution *)

Definition resolveValue (envMap : gmap string string) (resolver : fieldResolver)
    : fieldResolver :=
  let cleared := {| field := field resolver; value := value resolver; rawValue := "" |} in
  let envKey := reflect.Get (reflect.Tag (field resolver)) "env" in
  if String.eqb envKey "" || negb (CanSet resolver) then cleared
  else
    let rawValue :=
      match envMap !! envKey with
      | Some rawValue => rawValue
      | None => reflect.Get (reflect.Tag (field resolver)) "default"
      end in
    {| field := field resolver; value := value resolver; rawValue := rawValue |}.

Definition isRequired (resolver : fieldResolver) : bool :=
  String.eqb (reflect.Get (reflect.Tag (field resolver)) "required") "true".

(** The resolver once the loop has stored field [f] and its slot [i] in it,
    before [resolveValue]. *)
Definition resolverOf (f : reflect.StructField) (i : nat) : fieldResolver :=
  {| field := f; value := i; rawValue := "" |}.

(** The body of the loop [for i := range value.NumField()] of
    [populateStruct] for field [f] of index [i]: the struct afterwards, and
    the error the function returns with, if any. *)
Definition populateField (envMap : gmap string string) (f : reflect.StructField)
    (i : nat) (s : Struct) : Struct * option error :=
  let resolver := resolveValue envMap (resolverOf f i) in
  if String.eqb (rawValue resolver) "" && isRequired resolver then
    (s, Some (errMissingRequiredField (reflect.FieldName f)
                (reflect.Get (reflect.Tag f) "env")))
  else if String.eqb (rawValue resolver) "" then (s, None)
  else setValue resolver s.

(** The loop itself, from field [i] on; [fields] are the fields of index
    [i] and above. *)
Fixpoint rangeFields (envMap : gmap string string) (fields : list reflect.StructField)
    (i : nat) (s : Struct) : Struct * option error :=
  match fields with
  | [] => (s, None)
  | f :: rest =>
      match populateField envMap f i s with
      | (s', Some err) => (s', Some err)
      | (s', None) => rangeFields envMap rest (S i) s'
      end
  end.

(** The [target any] argument: a pointer to a struct, given by the struct
    type's fields and the struct's slots (one per field), or a value of
    another shape, given by its kind. *)
Inductive any :=
| PtrToStruct (typ : list reflect.StructField) (s : Struct)
| PtrTo (pointee : reflect.Kind)
| NonPtr (k : reflect.Kind).

Definition validateStruct (target : any) : option error :=
  match target with
  | NonPtr _ => Some errTargetMustBePointer
  | PtrTo _ => Some errTargetMustBePointerToStruct
  | PtrToStruct _ _ => None
  end.

(** [populateStruct]: the target after the call, and the error returned. *)
Definition populateStruct (envMap : gmap string string) (target : any)
    : any * option error :=
  match validateStruct target with
  | Some err => (target, Some err)
  | None =>
      match target with
      | PtrToStruct typ s =>
          let '(s', err) := rangeFields envMap typ 0 s in
          (PtrToStruct typ s', err)
      | _ => (target, None)
      end
  end.

(** ** Vocabulary of the properties *)

(** A converter either leaves the struct as it was, or stores one value in
    its own slot; when it returns an error it has stored nothing.  [atomic]
    says so of an outcome [out] of resolver [r] on struct [s]. *)
Definition atomic (r : fieldResolver) (s : Struct) (out : Struct * option error) : Prop :=
  match out.2 with
  | Some _ => out.1 = s
  | None => out.1 = s \/ exists x, out.1 = <[value r := x]> s
  end.

(** The error is [errMissingRequiredField]. *)
Definition isMissingRequired (e : error) : bool :=
  match e with
  | errMissingRequiredField _ _ => true
  | _ => false
  end.

(** The kinds {string, integer, unsigned, float, bool} of the values a map
    field may hold. *)
Definition scalarKind (k : reflect.Kind) : bool :=
  match k with
  | reflect.String | reflect.Bool
  | reflect.Int | reflect.Int8 | reflect.Int16 | reflect.Int32 | reflect.Int64
  | reflect.Uint | reflect.Uint8 | reflect.Uint16 | reflect.Uint32 | reflect.Uint64
  | reflect.Float32 | reflect.Float64 => true
  | _ => false
  end.

End Envload.

Arguments Ok {A} a.
Arguments Err {A} e.

(** ** Sample structs for the closed examples *)

(** An instance of the library for closed examples whose fields hold no
    float and no duration: such literals are refused. *)
Definition noFloats : GoLib := {|
  float64 := unit;
  zeroFloat := tt;
  ParseFloat := fun _ _ => (tt, Some strconv.ErrSyntax);
  roundFloat := fun _ x => x;
  ParseDuration := fun _ => None;
|}.

Definition tString : reflect.Type_ := reflect.Basic reflect.String "" "string".
Definition tInt : reflect.Type_ := reflect.Basic reflect.Int "" "int".
Definition tInt8 : reflect.Type_ := reflect.Basic reflect.Int8 "" "int8".
Definition tUint8 : reflect.Type_ := reflect.Basic reflect.Uint8 "" "uint8".

(** An exported field with the given tags. *)
Definition exported (name : string) (t : reflect.Type_) (tag : reflect.StructTag)
    : reflect.StructField :=
  {| reflect.FieldName := name; reflect.FieldPkgPath := "";
     reflect.FieldType := t; reflect.Tag := tag |}.

(** A resolver whose raw value is already resolved. *)
Definition resolved `{GoLib} (f : reflect.StructField) (i : nat) (raw : string)
    : fieldResolver :=
  {| field := f; value := i; rawValue := raw |}.

(** The struct of Test_SliceProcessingBug. *)
Definition sliceConfig : list reflect.StructField :=
  [exported "IntSliceWithEmpty" (reflect.SliceOf tInt) [("env", "INT_SLICE_WITH_EMPTY")];
   exported "IntSliceWithSpaces" (reflect.SliceOf tInt) [("env", "INT_SLICE_WITH_SPACES")]].

(** The struct of Test_IntegerOverflowDetection. *)
Definition overflowConfig : list reflect.StructField :=
  [exported "Int8Field" tInt8 [("env", "INT8_OVERFLOW")];
   exported "Uint8Field" tUint8 [("env", "UINT8_OVERFLOW")]].

(** The field of Test_MapDuplicateKeyHandling. *)
Definition settingsField : reflect.StructField :=
  exported "Settings" (reflect.MapOf tString tString) [("env", "SETTINGS_WITH_DUPLICATES")].

(** [Tags []string `env:"TAGS"`], the string slice of the package
    documentation. *)
Definition tagsField : reflect.StructField :=
  exported "Tags" (reflect.SliceOf tString) [("env", "TAGS")].

(** [Limits map[string]int8 `env:"LIMITS"`] and its unsigned sibling. *)
Definition limitsField : reflect.StructField :=
  exported "Limits" (reflect.MapOf tString tInt8) [("env", "LIMITS")].

Definition quotasField : reflect.StructField :=
  exported "Quotas" (reflect.MapOf tString tUint8) [("env", "QUOTAS")].

(** [Groups map[string][]int `env:"GROUPS"`]: string keys, a value type
    the map converter does not convert. *)
Definition groupsField : reflect.StructField :=
  exported "Groups" (reflect.MapOf tString (reflect.SliceOf tInt)) [("env", "GROUPS")].


(** [AppName string `env:"APP_NAME" required:"true" default:"MyApp"`]. *)
Definition appNameField : reflect.StructField :=
  exported "AppName" tString
    [("env", "APP_NAME"); ("required", "true"); ("default", "MyApp")].

(** [APIKey string `env:"API_KEY" required:"true"`]. *)
Definition apiKeyField : reflect.StructField :=
  exported "APIKey" tString [("env", "API_KEY"); ("required", "true")].

(** [Region string `env:"REGION" default:"eu"`]. *)
Definition regionField : reflect.StructField :=
  exported "Region" tString [("env", "REGION"); ("default", "eu")].

(** [Mode string `env:"MODE" required:"TRUE"`]. *)
Definition modeField : reflect.StructField :=
  exported "Mode" tString [("env", "MODE"); ("required", "TRUE")].

(** [Ports []int `env:"PORTS"`]. *)
Definition portsField : reflect.StructField :=
  exported "Ports" (reflect.SliceOf tInt) [("env", "PORTS")].

(** ** The entry point *)

(** [LoadAndParse].  [Read] stands for [godotenv.Read]: the mapping of the
    file at a path, or [None] when the file cannot be read.  The first
    component of the result tells whether the warning was logged. *)
Definition LoadAndParse `{GoLib} (Read : string -> option (gmap string string))
    (filePath : string) (target : any) : bool * (any * option error) :=
  match Read filePath with
  | None => (true, populateStruct ∅ target)
  | Some envMap => (false, populateStruct envMap target)
  end.

(** ** Vocabulary of the further properties *)

(** The number a string of decimal digits denotes, read after the digits
    that gave [n]. *)
Fixpoint decimal (s : string) (n : Z) : Z :=
  match s with
  | EmptyString => n
  | String c s' =>
      match strconv.digit c with
      | Some d => decimal s' (n * 10 + d)
      | None => n
      end
  end.

(** Every byte of the string is a decimal digit. *)
Fixpoint allDigits (s : string) : bool :=
  match s with
  | EmptyString => true
  | String c s' =>
      match strconv.digit c with
      | Some _ => allDigits s'
      | None => false
      end
  end.

(** The field an error names, if it names one. *)
Definition errorField (e : error) : option string :=
  match e with
  | errTargetMustBePointer | errTargetMustBePointerToStruct => None
  | errMissingRequiredField f _ | InvalidDuration f
  | InvalidInt f _ | InvalidUint f _ | InvalidFloat f _ | InvalidBool f _
  | InvalidIntInSlice f _ _ | InvalidUintInSlice f _ _
  | InvalidFloatInSlice f _ _ | InvalidBoolInSlice f _ _
  | errInvalidMapFormat f _ | InvalidMapValue f _ _ => Some f
  end.

(** A step on the struct that does not read it: it stores a value that does
    not depend on the struct in slot [i], or stores nothing, and its error
    does not depend on the struct either. *)
Definition uniform `{GoLib} (i : nat) (step : Struct -> Struct * option error) : Prop :=
  exists (upd : option Value) (err : option error),
    forall s, step s = (match upd with Some x => <[i := x]> s | None => s end, err).

(** The types [setValue] converts nothing for: a kind outside its cases, a
    slice whose element kind is outside the cases of [setSlice], a map
    whose key kind is not [String]. *)
Definition skippedType (t : reflect.Type_) : bool :=
  match reflect.kind t with
  | reflect.Slice => negb (scalarKind (reflect.kind (reflect.Elem t)))
  | reflect.Map => negb (bool_decide (reflect.kind (reflect.Key t) = reflect.String))
  | k => negb (scalarKind k)
  end.

(** Two mappings agree on the source keys of the fields. *)
Definition agreeOn (typ : list reflect.StructField) (m1 m2 : gmap string string) : Prop :=
  forall f, f ∈ typ ->
    m1 !! reflect.Get (reflect.Tag f) "env" = m2 !! reflect.Get (reflect.Tag f) "env".

(** The integer a signed decimal literal denotes: an optional sign and at
    least one digit, nothing else. *)
Definition signedDecimal (s : string) : option Z :=
  match s with
  | EmptyString => None
  | String c s' =>
      let '(neg, digits) :=
        if Ascii.eqb c "+" then (false, s')
        else if Ascii.eqb c "-" then (true, s')
        else (false, s) in
      if allDigits digits && negb (String.eqb digits "") then
        Some (if neg then - decimal digits 0 else decimal digits 0)
      else None
  end.

(** The kinds of the sized signed, respectively unsigned, integers. *)
Definition intKinds : list reflect.Kind :=
  [reflect.Int; reflect.Int8; reflect.Int16; reflect.Int32; reflect.Int64].

Definition uintKinds : list reflect.Kind :=
  [reflect.Uint; reflect.Uint8; reflect.Uint16; reflect.Uint32; reflect.Uint64].

(** The slice index an error carries, if it is the error of a slice
    element. *)
Definition errorIndex (e : error) : option nat :=
  match e with
  | InvalidIntInSlice _ i _ | InvalidUintInSlice _ i _
  | InvalidFloatInSlice _ i _ | InvalidBoolInSlice _ i _ => Some i
  | _ => None
  end.




(** [Nested Inner `env:"NESTED"`], a field of a struct type; [Inner] is a
    struct type of the program. *)
Definition nestedField : reflect.StructField :=
  exported "Nested" (reflect.Basic reflect.Struct "main" "Inner") [("env", "NESTED")].


(** * Properties *)

Section Properties.

Context `{GoLib}.

(** Case analysis on an innermost scrutinee of the goal. *)
Ltac case_scrutinee :=
  match goal with
  | |- context [match ?x with _ => _ end] =>
      lazymatch x with
      | context [match _ with _ => _ end] => fail
      | _ => destruct x eqn:?
      end
  end.

Ltac atomic_tac :=
  unfold atomic, Set_; simpl; repeat (case_scrutinee; simpl); eauto.

Lemma setString_atomic r s : atomic r s (setString r s).
Proof. unfold setString. atomic_tac. Qed.

Lemma setDuration_atomic r s : atomic r s (setDuration r s).
Proof. unfold setDuration. atomic_tac. Qed.

Lemma setInt_atomic r s : atomic r s (setInt r s).
Proof. unfold setInt. atomic_tac. Qed.

Lemma setIntOrDuration_atomic r s : atomic r s (setIntOrDuration r s).
Proof.
  unfold setIntOrDuration.
  destruct (_ && _); [apply setDuration_atomic | apply setInt_atomic].
Qed.

Lemma setUint_atomic r s : atomic r s (setUint r s).
Proof. unfold setUint. atomic_tac. Qed.

Lemma setFloat_atomic r s : atomic r s (setFloat r s).
Proof. unfold setFloat. atomic_tac. Qed.

Lemma setBool_atomic r s : atomic r s (setBool r s).
Proof. unfold setBool. atomic_tac. Qed.

Lemma setIntSlice_atomic r parts s : atomic r s (setIntSlice r parts s).
Proof. unfold setIntSlice, atomic, Set_. destruct (rangeParts _ _ _ _); simpl; eauto. Qed.

Lemma setUintSlice_atomic r parts s : atomic r s (setUintSlice r parts s).
Proof. unfold setUintSlice, atomic, Set_. destruct (rangeParts _ _ _ _); simpl; eauto. Qed.

Lemma setFloatSlice_atomic r parts s : atomic r s (setFloatSlice r parts s).
Proof. unfold setFloatSlice, atomic, Set_. destruct (rangeParts _ _ _ _); simpl; eauto. Qed.

Lemma setBoolSlice_atomic r parts s : atomic r s (setBoolSlice r parts s).
Proof. unfold setBoolSlice, atomic, Set_. destruct (rangeParts _ _ _ _); simpl; eauto. Qed.

Lemma setSlice_atomic r s : atomic r s (setSlice r s).
Proof.
  unfold setSlice.
  destruct (reflect.kind _);
    auto using setIntSlice_atomic, setUintSlice_atomic, setFloatSlice_atomic,
      setBoolSlice_atomic;
    atomic_tac.
Qed.

Lemma setMap_atomic r s : atomic r s (setMap r s).
Proof. unfold setMap. atomic_tac. Qed.

Lemma setValue_atomic r s : atomic r s (setValue r s).
Proof.
  unfold setValue.
  destruct (reflect.kind _);
    auto using setString_atomic, setIntOrDuration_atomic, setUint_atomic,
      setFloat_atomic, setBool_atomic, setSlice_atomic, setMap_atomic;
    atomic_tac.
Qed.

Lemma resolveValue_value envMap r : value (resolveValue envMap r) = value r.
Proof. unfold resolveValue. repeat case_scrutinee; reflexivity. Qed.

Lemma resolveValue_field envMap r : field (resolveValue envMap r) = field r.
Proof. unfold resolveValue. repeat case_scrutinee; reflexivity. Qed.

Lemma populateField_atomic envMap f i s :
  atomic (resolverOf f i) s (populateField envMap f i s).
Proof.
  unfold populateField.
  destruct (_ && _); [reflexivity|].
  destruct (String.eqb _ _); [left; reflexivity|].
  pose proof (setValue_atomic (resolveValue envMap (resolverOf f i)) s) as Ha.
  unfold atomic in *. rewrite resolveValue_value in Ha. exact Ha.
Qed.

(** A field's step touches no slot but its own. *)
Lemma populateField_other envMap f i s j :
  j <> i -> (populateField envMap f i s).1 !! j = s !! j.
Proof.
  intros Hne. pose proof (populateField_atomic envMap f i s) as Ha.
  unfold atomic in Ha. simpl in Ha.
  destruct (populateField envMap f i s) as [s' [e|]]; simpl in *.
  - by subst.
  - destruct Ha as [-> | [x ->]]; [done|]. by apply list_lookup_insert_ne.
Qed.

(** The loop from field [i] on over [fields] touches the slots
    [i .. i + length fields - 1] only. *)
Lemma rangeFields_frame envMap fields : forall i s j,
  (j < i \/ i + length fields <= j)%nat ->
  (rangeFields envMap fields i s).1 !! j = s !! j.
Proof.
  induction fields as [|f rest IH]; intros i s j Hj; simpl; [done|].
  pose proof (populateField_other envMap f i s j) as Hf.
  destruct (populateField envMap f i s) as [s' [e|]]; simpl in *.
  - apply Hf. lia.
  - rewrite IH by lia. apply Hf. lia.
Qed.


(** ** Resolution of the raw value *)

Lemma resolveValue_skipped envMap r :
  reflect.Get (reflect.Tag (field r)) "env" = "" \/ CanSet r = false ->
  rawValue (resolveValue envMap r) = "".
Proof.
  intros [Hk | Hw]; unfold resolveValue.
  - by rewrite Hk.
  - rewrite Hw. simpl. by rewrite orb_true_r.
Qed.

Lemma resolveValue_keyed envMap r :
  reflect.Get (reflect.Tag (field r)) "env" <> "" -> CanSet r = true ->
  rawValue (resolveValue envMap r) =
  match envMap !! reflect.Get (reflect.Tag (field r)) "env" with
  | Some v => v
  | None => reflect.Get (reflect.Tag (field r)) "default"
  end.
Proof.
  intros Hk Hw. unfold resolveValue.
  apply String.eqb_neq in Hk. by rewrite Hk, Hw.
Qed.

Lemma isRequired_resolveValue envMap r :
  isRequired (resolveValue envMap r) = isRequired r.
Proof. unfold isRequired. by rewrite resolveValue_field. Qed.

Lemma CanSet_resolverOf f i :
  CanSet (resolverOf f i) = true <-> reflect.FieldPkgPath f = "".
Proof. unfold CanSet. simpl. apply String.eqb_eq. Qed.

(** ** The errors a converter can return *)

Lemma rangeParts_Err parse parts : forall i slice e,
  rangeParts parse parts i slice = Err e ->
  exists j part, parse j part = Err e.
Proof.
  induction parts as [|part rest IH]; intros i slice e; simpl; [done|].
  destruct (parse i part) as [x|e'] eqn:Hp.
  - apply IH.
  - intros [= ->]. eauto.
Qed.

Lemma rangePairs_Err r valueKind pairs : forall result e,
  rangePairs r valueKind pairs result = Err e ->
  exists pair_, pair_ ∈ pairs /\ parsePair r valueKind pair_ = Err e.
Proof.
  induction pairs as [|p rest IH]; intros result e; simpl; [done|].
  destruct (parsePair r valueKind p) as [[k v]|e'] eqn:Hp.
  - intros Hr. destruct (IH _ _ Hr) as (q & Hq & Hpq).
    exists q. split; [by right | done].
  - intros [= ->]. exists p. split; [by left | done].
Qed.

Lemma parsePair_not_missing r valueKind p e :
  parsePair r valueKind p = Err e -> isMissingRequired e = false.
Proof.
  unfold parsePair. repeat case_scrutinee; by intros [= <-].
Qed.

Ltac slice_not_missing :=
  let Hr := fresh in
  destruct (rangeParts _ _ _ _) eqn:Hr; intros [= <-];
  apply rangeParts_Err in Hr as (j & part & Hr);
  revert Hr; repeat case_scrutinee; by intros [= <-].

Lemma setSlice_not_missing r s e :
  (setSlice r s).2 = Some e -> isMissingRequired e = false.
Proof.
  unfold setSlice.
  destruct (reflect.kind _); try discriminate;
    unfold setIntSlice, setUintSlice, setFloatSlice, setBoolSlice;
    simpl; slice_not_missing.
Qed.

Lemma setMap_not_missing r s e :
  (setMap r s).2 = Some e -> isMissingRequired e = false.
Proof.
  unfold setMap. destruct (negb _); [discriminate|].
  destruct (rangePairs _ _ _ _) eqn:Hr; [discriminate|]. intros [= <-].
  apply rangePairs_Err in Hr as (p & _ & Hp).
  by eapply parsePair_not_missing.
Qed.

Lemma setValue_not_missing r s e :
  (setValue r s).2 = Some e -> isMissingRequired e = false.
Proof.
  unfold setValue.
  destruct (reflect.kind _);
    eauto using setSlice_not_missing, setMap_not_missing; try discriminate;
    unfold setString, setIntOrDuration, setDuration, setInt, setUint, setFloat,
      setBool;
    repeat case_scrutinee; simpl; (discriminate || by intros [= <-]).
Qed.

(** ** The three outcomes of a field's step *)

Lemma populateField_missing envMap f i s :
  rawValue (resolveValue envMap (resolverOf f i)) = "" ->
  isRequired (resolverOf f i) = true ->
  populateField envMap f i s =
  (s, Some (errMissingRequiredField (reflect.FieldName f)
              (reflect.Get (reflect.Tag f) "env"))).
Proof.
  intros Hraw Hreq. unfold populateField.
  by rewrite Hraw, isRequired_resolveValue, Hreq.
Qed.

Lemma populateField_skip envMap f i s :
  rawValue (resolveValue envMap (resolverOf f i)) = "" ->
  isRequired (resolverOf f i) = false ->
  populateField envMap f i s = (s, None).
Proof.
  intros Hraw Hreq. unfold populateField.
  by rewrite Hraw, isRequired_resolveValue, Hreq.
Qed.

Lemma populateField_convert envMap f i s :
  rawValue (resolveValue envMap (resolverOf f i)) <> "" ->
  populateField envMap f i s = setValue (resolveValue envMap (resolverOf f i)) s.
Proof.
  intros Hraw. unfold populateField.
  apply String.eqb_neq in Hraw. by rewrite Hraw.
Qed.

(** A step that returns [errMissingRequiredField] found an empty raw value
    on a required field. *)
Lemma populateField_missing_inv envMap f i s s' n k :
  populateField envMap f i s = (s', Some (errMissingRequiredField n k)) ->
  rawValue (resolveValue envMap (resolverOf f i)) = "" /\
  isRequired (resolverOf f i) = true.
Proof.
  intros Hp.
  destruct (String.eqb_spec (rawValue (resolveValue envMap (resolverOf f i))) "")
    as [Hraw | Hraw].
  - split; [done|].
    destruct (isRequired (resolverOf f i)) eqn:Hreq; [done|].
    rewrite populateField_skip in Hp by done. discriminate.
  - rewrite populateField_convert in Hp by done.
    pose proof (setValue_not_missing (resolveValue envMap (resolverOf f i)) s
                  (errMissingRequiredField n k)) as Hn.
    rewrite Hp in Hn. simpl in Hn. by specialize (Hn eq_refl).
Qed.

(** The slot of a skipped field is the same at the end of the loop. *)
Lemma rangeFields_skip envMap f rest i s :
  populateField envMap f i s = (s, None) ->
  (rangeFields envMap (f :: rest) i s).1 !! i = s !! i.
Proof.
  intros Hp. simpl. rewrite Hp. apply rangeFields_frame. lia.
Qed.

(** ** The claims *)


(** C5.  For a writable field whose source key is present in the mapping,
    the resolved raw value is the mapping's value, the empty string
    included; when that value is empty and the field is not required, the
    step neither applies the default nor converts anything, and the field
    keeps its starting value to the end of the loop. *)
Theorem C5_present_key_beats_default envMap f v i :
  reflect.Get (reflect.Tag f) "env" <> "" ->
  reflect.FieldPkgPath f = "" ->
  envMap !! reflect.Get (reflect.Tag f) "env" = Some v ->
  rawValue (resolveValue envMap (resolverOf f i)) = v /\
  (v = "" -> isRequired (resolverOf f i) = false ->
   forall s rest,
     populateField envMap f i s = (s, None) /\
     (rangeFields envMap (f :: rest) i s).1 !! i = s !! i).
Proof.
  intros Hk Hw Hv.
  assert (rawValue (resolveValue envMap (resolverOf f i)) = v) as Hraw.
  { rewrite resolveValue_keyed; [simpl; by rewrite Hv | done | by apply CanSet_resolverOf]. }
  split; [done|].
  intros -> Hreq s rest.
  assert (populateField envMap f i s = (s, None)) as Hp
    by by apply populateField_skip.
  split; [done | by apply rangeFields_skip].
Qed.


(** C10.  [isRequired] holds exactly when the value of the required tag is
    the string "true"; "TRUE", "1", "yes" and an absent tag (whose value is
    the empty string) make the field optional, and the step of an optional
    field never returns [errMissingRequiredField]: on an empty raw value it
    returns no error and leaves the struct as it was. *)
Theorem C10_required_only_when_true :
  (forall r, isRequired r = true <->
             reflect.Get (reflect.Tag (field r)) "required" = "true") /\
  (forall r, reflect.Get (reflect.Tag (field r)) "required" ∈ ["TRUE"; "1"; "yes"; ""] ->
             isRequired r = false) /\
  (forall r, (forall v, (("required", v) : string * string) ∉ reflect.Tag (field r)) ->
             reflect.Get (reflect.Tag (field r)) "required" = "" /\
             isRequired r = false) /\
  (forall envMap f i s,
     reflect.Get (reflect.Tag f) "required" <> "true" ->
     (rawValue (resolveValue envMap (resolverOf f i)) = "" ->
      populateField envMap f i s = (s, None)) /\
     (forall e, (populateField envMap f i s).2 = Some e ->
                isMissingRequired e = false)).
Proof.
  assert (forall tag : reflect.StructTag,
            (forall v, (("required", v) : string * string) ∉ tag) ->
            reflect.Get tag "required" = "") as Habsent.
  { induction tag as [|[k v] tag IH]; intros Habs; simpl; [done|].
    destruct (String.eqb_spec k "required") as [-> | Hne].
    - exfalso. apply (Habs v). by left.
    - apply IH. intros v' Hin. apply (Habs v'). by right. }
  split; [|split; [|split]].
  - intros r. unfold isRequired. apply String.eqb_eq.
  - intros r Hv. unfold isRequired.
    repeat (apply elem_of_cons in Hv as [-> | Hv]; [done|]).
    by apply elem_of_nil in Hv.
  - intros r Habs. unfold isRequired. by rewrite Habsent.
  - intros envMap f i s Hne.
    assert (isRequired (resolverOf f i) = false) as Hopt.
    { unfold isRequired. simpl. by apply String.eqb_neq. }
    split.
    + intros Hraw. by apply populateField_skip.
    + intros e He.
      destruct (isMissingRequired e) eqn:Hm; [|done]. exfalso.
      destruct e; try discriminate.
      destruct (populateField envMap f i s) as [s' o] eqn:Hp. simpl in He. subst o.
      apply populateField_missing_inv in Hp as [_ Hreq]. congruence.
Qed.

(** ** Integer literals out of range *)

Lemma ParseInt_256_8 : strconv.ParseInt "256" 8 = (127, Some strconv.ErrRange).
Proof. reflexivity. Qed.

Lemma ParseUint_256_8 : strconv.ParseUint "256" 8 = (255, Some strconv.ErrRange).
Proof. reflexivity. Qed.

(** C7.  On the raw value "256", the converter of an 8-bit signed integer
    field and the converter of an 8-bit unsigned integer field both return
    the scalar conversion error with a range cause, and the struct is left
    as it was: no wrapped-around value is stored. *)
Theorem C7_eight_bit_overflow r s :
  rawValue r = "256" ->
  (reflect.kind (fieldType r) = reflect.Int8 ->
   ~ (reflect.PkgPath (fieldType r) = "time" /\ reflect.Name (fieldType r) = "Duration") ->
   setValue r s = (s, Some (InvalidInt (fieldName r) strconv.ErrRange))) /\
  (reflect.kind (fieldType r) = reflect.Uint8 ->
   setValue r s = (s, Some (InvalidUint (fieldName r) strconv.ErrRange))).
Proof.
  intros Hraw. split.
  - intros Hkind Hdur. unfold setValue. rewrite Hkind.
    unfold setIntOrDuration.
    destruct (String.eqb_spec (reflect.PkgPath (fieldType r)) "time") as [Hp|Hp];
      destruct (String.eqb_spec (reflect.Name (fieldType r)) "Duration") as [Hn|Hn];
      simpl; try (exfalso; by apply Hdur);
      unfold setInt, reflect.Bits; by rewrite Hkind, Hraw, ParseInt_256_8.
  - intros Hkind. unfold setValue. rewrite Hkind.
    unfold setUint, reflect.Bits. by rewrite Hkind, Hraw, ParseUint_256_8.
Qed.

(** ** Collections *)

(** C9.  When the conversion of a slice or map field returns an error, the
    struct is exactly as it was before the conversion: the collection under
    construction has not been stored in the field.  The same holds for the
    field's whole step in populate. *)
Theorem C9_collection_conversion_atomic :
  (forall r s s' e,
     reflect.kind (fieldType r) = reflect.Slice \/
     reflect.kind (fieldType r) = reflect.Map ->
     setValue r s = (s', Some e) -> s' = s) /\
  (forall envMap f i s s' e,
     reflect.kind (reflect.FieldType f) = reflect.Slice \/
     reflect.kind (reflect.FieldType f) = reflect.Map ->
     populateField envMap f i s = (s', Some e) -> s' = s).
Proof.
  split.
  - intros r s s' e _ Hset.
    pose proof (setValue_atomic r s) as Ha. unfold atomic in Ha.
    by rewrite Hset in Ha.
  - intros envMap f i s s' e _ Hp.
    pose proof (populateField_atomic envMap f i s) as Ha.
    unfold atomic in Ha. by rewrite Hp in Ha.
Qed.




(** ** Maps *)

Lemma Split_cons str sep : exists part parts, gostrings.Split str sep = part :: parts.
Proof.
  induction str as [|c str (part & parts & IH)]; simpl; [eauto|].
  destruct (Ascii.eqb c sep); [eauto|]. rewrite IH. eauto.
Qed.



(** The loop succeeds as soon as every pair token parses. *)
Lemma rangePairs_total r valueKind pairs : forall result,
  (forall pair_, pair_ ∈ pairs -> exists kv, parsePair r valueKind pair_ = Ok kv) ->
  exists result', rangePairs r valueKind pairs result = Ok result'.
Proof.
  induction pairs as [|p rest IH]; intros result Hall; simpl; [eauto|].
  destruct (Hall p) as [[k v] ->]; [by left|].
  apply IH. intros q Hq. apply Hall. by right.
Qed.



Lemma convertMapValue_unsupported r v valueKind :
  scalarKind valueKind = false ->
  convertMapValue r v valueKind = inr (errUnsupportedMapValueType valueKind).
Proof. by destruct valueKind. Qed.

Lemma parsePair_unsupported r valueKind p :
  scalarKind valueKind = false ->
  parsePair r valueKind p =
  Err (match gostrings.Cut (gostrings.TrimSpace p) ":" with
       | None => errInvalidMapFormat (fieldName r) p
       | Some (k, _) =>
           InvalidMapValue (fieldName r) (gostrings.TrimSpace k)
             (errUnsupportedMapValueType valueKind)
       end).
Proof.
  intros Hk. unfold parsePair, gostrings.SplitN2.
  destruct (gostrings.Cut _ _) as [[k v]|]; simpl; [|done].
  by rewrite convertMapValue_unsupported.
Qed.

(** C3 (as amended).  A map field with string keys whose value type is not
    one of string, integer, unsigned, float or bool is not skipped: on a
    non-empty raw value its step in populate fails on the first pair token
    of the raw value, with the map format error when the token has no ':'
    and otherwise with the per-value error for an unsupported map value
    type, which names the field and the key.  The struct is left as it
    was. *)
Theorem C3_unsupported_map_value_fails envMap f i s :
  reflect.kind (reflect.FieldType f) = reflect.Map ->
  reflect.kind (reflect.Key (reflect.FieldType f)) = reflect.String ->
  scalarKind (reflect.kind (reflect.Elem (reflect.FieldType f))) = false ->
  rawValue (resolveValue envMap (resolverOf f i)) <> "" ->
  exists pair_ rest,
    gostrings.Split (rawValue (resolveValue envMap (resolverOf f i))) ","
      = pair_ :: rest /\
    populateField envMap f i s =
    (s, Some (match gostrings.Cut (gostrings.TrimSpace pair_) ":" with
              | None => errInvalidMapFormat (reflect.FieldName f) pair_
              | Some (k, _) =>
                  InvalidMapValue (reflect.FieldName f) (gostrings.TrimSpace k)
                    (errUnsupportedMapValueType
                       (reflect.kind (reflect.Elem (reflect.FieldType f))))
              end)).
Proof.
  intros Hmap Hkey Hval Hraw.
  destruct (Split_cons (rawValue (resolveValue envMap (resolverOf f i))) ",")
    as (p & rest & Hsplit).
  exists p, rest. split; [done|].
  rewrite populateField_convert by done.
  unfold setValue, fieldType. rewrite resolveValue_field. simpl. rewrite Hmap.
  unfold setMap, fieldType. rewrite resolveValue_field. simpl.
  rewrite Hkey, Hsplit. simpl.
  rewrite parsePair_unsupported by done.
  unfold fieldName. by rewrite resolveValue_field.
Qed.

End Properties.

(** * Further properties *)

Section Further.

Context `{GoLib}.

Ltac case_inner :=
  match goal with
  | |- context [match ?x with _ => _ end] =>
      lazymatch x with
      | context [match _ with _ => _ end] => fail
      | _ => destruct x eqn:?
      end
  end.

(** ** The converters do not read the struct *)

Ltac uniform_tac :=
  unfold uniform, Set_; simpl; repeat (case_inner; simpl);
  first [ by (exists None; eexists; intros; reflexivity)
        | by (eexists (Some _), _; intros; reflexivity) ].

Lemma setIntOrDuration_uniform r : uniform (value r) (setIntOrDuration r).
Proof. unfold setIntOrDuration, setDuration, setInt. uniform_tac. Qed.

Lemma typedSlice_uniform r (res : loopResult (list scalar)) :
  uniform (value r)
    (fun s => match res with
              | Err e => (s, Some e)
              | Ok slice => (Set_ r (SliceV slice) s, None)
              end).
Proof. uniform_tac. Qed.

Lemma setSlice_uniform r : uniform (value r) (setSlice r).
Proof.
  unfold setSlice.
  destruct (reflect.kind _);
    try apply typedSlice_uniform; uniform_tac.
Qed.

Lemma setMap_uniform r : uniform (value r) (setMap r).
Proof. unfold setMap. uniform_tac. Qed.

Lemma setValue_uniform r : uniform (value r) (setValue r).
Proof.
  unfold setValue.
  destruct (reflect.kind _);
    auto using setIntOrDuration_uniform, setSlice_uniform, setMap_uniform;
    unfold setString, setUint, setFloat, setBool; uniform_tac.
Qed.

Lemma populateField_uniform envMap f i : uniform i (populateField envMap f i).
Proof.
  unfold populateField.
  destruct (_ && _); [uniform_tac|].
  destruct (String.eqb _ _); [uniform_tac|].
  pose proof (setValue_uniform (resolveValue envMap (resolverOf f i))) as Hu.
  by rewrite resolveValue_value in Hu.
Qed.

Lemma populateField_length envMap f i s :
  length (populateField envMap f i s).1 = length s.
Proof.
  destruct (populateField_uniform envMap f i) as (upd & err & Hu). rewrite Hu.
  destruct upd; simpl; [apply length_insert | done].
Qed.

Lemma rangeFields_length envMap fields : forall i s,
  length (rangeFields envMap fields i s).1 = length s.
Proof.
  induction fields as [|f rest IH]; intros i s; simpl; [done|].
  pose proof (populateField_length envMap f i s) as Hl.
  destruct (populateField envMap f i s) as [s' [e|]]; simpl in *; [done|].
  by rewrite IH.
Qed.

Lemma populateStruct_struct envMap typ s :
  populateStruct envMap (PtrToStruct typ s) =
  (PtrToStruct typ (rangeFields envMap typ 0 s).1, (rangeFields envMap typ 0 s).2).
Proof. unfold populateStruct. simpl. by destruct (rangeFields envMap typ 0 s). Qed.

Lemma populateField_error_uniform envMap f i s t :
  (populateField envMap f i s).2 = (populateField envMap f i t).2.
Proof.
  destruct (populateField_uniform envMap f i) as (upd & err & Hu).
  by rewrite !Hu.
Qed.

Lemma rangeFields_error_uniform envMap fields : forall i s t,
  (rangeFields envMap fields i s).2 = (rangeFields envMap fields i t).2.
Proof.
  induction fields as [|f rest IH]; intros i s t; simpl; [done|].
  pose proof (populateField_error_uniform envMap f i s t) as He.
  destruct (populateField envMap f i s) as [s1 [e1|]],
           (populateField envMap f i t) as [t1 [e2|]]; simpl in *;
    try discriminate; [done | apply IH].
Qed.

(** X1.  Whether populate succeeds, and with which error, is decided by
    the mapping and the struct type alone: the values the struct holds
    before the call play no part. *)
Theorem populate_error_ignores_contents envMap typ s t :
  (populateStruct envMap (PtrToStruct typ s)).2 =
  (populateStruct envMap (PtrToStruct typ t)).2.
Proof. rewrite !populateStruct_struct. simpl. apply rangeFields_error_uniform. Qed.

(** The value a step leaves in its own slot is the same on two structs of
    one length that agree on that slot. *)
Lemma populateField_own_slot envMap f j s t :
  length t = length s -> t !! j = s !! j ->
  (populateField envMap f j t).1 !! j = (populateField envMap f j s).1 !! j.
Proof.
  intros Hlen Hj.
  destruct (populateField_uniform envMap f j) as (upd & err & Hu).
  rewrite !Hu. destruct upd as [x|]; simpl; [|done].
  destruct (decide (j < length s)%nat) as [Hlt | Hge].
  - rewrite (list_lookup_insert_eq t), (list_lookup_insert_eq s) by lia. done.
  - rewrite (list_insert_ge t), (list_insert_ge s) by lia. done.
Qed.

(** After the loop, whatever its outcome, the slot of a field is as it was
    before the loop or as the field's own step leaves it on the struct the
    loop started from; the latter when the loop succeeded. *)
Lemma rangeFields_slot envMap fields : forall i s k f,
  fields !! k = Some f ->
  let out := rangeFields envMap fields i s in
  let own := (populateField envMap f (i + k) s).1 !! (i + k)%nat in
  (out.2 = None -> out.1 !! (i + k)%nat = own) /\
  (out.1 !! (i + k)%nat = s !! (i + k)%nat \/ out.1 !! (i + k)%nat = own).
Proof.
  induction fields as [|g rest IH]; intros i s k f Hk; [done|].
  pose proof (populateField_atomic envMap g i s) as Ha. unfold atomic in Ha.
  pose proof (populateField_length envMap g i s) as Hl.
  destruct k as [|k]; simpl in Hk.
  - injection Hk as ->. simpl. rewrite Nat.add_0_r.
    pose proof (rangeFields_frame envMap rest (S i)
                  (populateField envMap f i s).1 i) as Hfr.
    destruct (populateField envMap f i s) as [s1 [e|]]; simpl in *.
    + split; [done | by right].
    + rewrite Hfr by lia. split; [done | by right].
  - simpl.
    pose proof (populateField_other envMap g i s (i + S k)) as Ho.
    destruct (populateField envMap g i s) as [s1 [e|]]; simpl in *.
    + subst s1. split; [done | by left].
    + destruct (IH (S i) s1 k f Hk) as [Hok Hany]. simpl in Hok, Hany.
      replace (S (i + k)) with (i + S k)%nat in * by lia.
      rewrite <- (populateField_own_slot envMap f (i + S k) s s1) by (auto with lia).
      split; [done|]. destruct Hany as [Hany|Hany]; [left | by right].
      rewrite Hany. apply Ho. lia.
Qed.

(** X2.  Fields are converted independently of one another: when populate
    succeeds, each field holds what its own step alone stores in it on the
    struct as it was before the call. *)
Theorem populate_fields_independent envMap typ s s' j f :
  populateStruct envMap (PtrToStruct typ s) = (PtrToStruct typ s', None) ->
  typ !! j = Some f ->
  s' !! j = (populateField envMap f j s).1 !! j.
Proof.
  rewrite populateStruct_struct. intros [= Hs He] Hj.
  destruct (rangeFields_slot envMap typ 0 s j f Hj) as [Hok _].
  simpl in Hok. rewrite <- Hs. by apply Hok.
Qed.

(** Populating again changes nothing: on a struct that agrees, on the slots
    of the fields, with the result of a successful loop, the loop succeeds
    and stores what is there already. *)
Lemma rangeFields_again envMap fields : forall i s s' t,
  rangeFields envMap fields i s = (s', None) ->
  length t = length s ->
  (forall j, (i <= j < i + length fields)%nat -> t !! j = s' !! j) ->
  rangeFields envMap fields i t = (t, None).
Proof.
  induction fields as [|f rest IH]; intros i s s' t Hrun Hlen Hagree; [done|].
  simpl in *.
  destruct (populateField_uniform envMap f i) as (upd & err & Hu).
  pose proof (rangeFields_frame envMap rest (S i) (populateField envMap f i s).1 i)
    as Hfr.
  rewrite Hu in Hrun, Hfr. rewrite Hu.
  destruct err as [e|]; [done|]. unfold Struct in *.
  assert (length (match upd with Some x => <[i:=x]> s | None => s end) = length t)
    as Hlen' by (unfold Struct in *; destruct upd; simpl; rewrite ?length_insert; lia).
  assert (forall j, (S i <= j < S i + length rest)%nat -> t !! j = s' !! j) as Hrest
    by (intros j Hj; apply Hagree; lia).
  destruct upd as [x|]; simpl in *.
  - assert (<[i:=x]> t = t) as ->.
    { destruct (decide (i < length t)%nat) as [Hlt|Hge]; [|apply list_insert_ge; lia].
      apply list_insert_id. rewrite Hagree by lia.
      rewrite Hrun in Hfr. simpl in Hfr. rewrite Hfr by lia.
      apply list_lookup_insert_eq. lia. }
    by eapply IH.
  - by eapply IH.
Qed.

(** X3.  Populate is idempotent on its result: after a successful call, a
    second call with the same mapping on the populated struct succeeds and
    leaves the struct as it is. *)
Theorem populate_idempotent envMap target target' :
  populateStruct envMap target = (target', None) ->
  populateStruct envMap target' = (target', None).
Proof.
  destruct target as [typ s | k | k]; [|done..].
  rewrite populateStruct_struct. intros [= <- He].
  rewrite populateStruct_struct.
  destruct (rangeFields envMap typ 0 s) as [s' r] eqn:Hrun. simpl in *. subst r.
  rewrite (rangeFields_again envMap typ 0 s s' s' Hrun); [done | | done].
  pose proof (rangeFields_length envMap typ 0 s) as Hl. by rewrite Hrun in Hl.
Qed.

(** ** Fields that are not converted *)

Lemma setValue_skippedType r s :
  skippedType (fieldType r) = true -> setValue r s = (s, None).
Proof.
  unfold skippedType, setValue.
  destruct (reflect.kind (fieldType r)) eqn:Hk; simpl; try discriminate; try done.
  - unfold setMap. by intros ->.
  - unfold setSlice.
    by destruct (reflect.kind (reflect.Elem (fieldType r))).
Qed.

(** X4.  A field of a type the converter has no case for (a struct, a
    pointer, a slice of such, a map whose keys are not strings, ...) is
    passed over without an error even when a value is supplied for it: its
    step stores nothing, and the only error it can return is the one of the
    required check. *)
Theorem unsupported_type_is_skipped envMap f i s :
  skippedType (reflect.FieldType f) = true ->
  (populateField envMap f i s).1 = s /\
  (forall e, (populateField envMap f i s).2 = Some e -> isMissingRequired e = true) /\
  (rawValue (resolveValue envMap (resolverOf f i)) <> "" ->
   populateField envMap f i s = (s, None)).
Proof.
  intros Hskip.
  assert (setValue (resolveValue envMap (resolverOf f i)) s = (s, None)) as Hset.
  { apply setValue_skippedType. unfold fieldType. by rewrite resolveValue_field. }
  unfold populateField. rewrite Hset.
  destruct (String.eqb_spec (rawValue (resolveValue envMap (resolverOf f i))) "")
    as [Hraw | Hraw];
    destruct (isRequired _); simpl; repeat split; try done; by intros e [= <-].
Qed.

(** X5.  Whatever the outcome of populate, a field whose resolved raw
    value is empty, or whose type the converter has no case for, holds
    after the call the value it held before. *)
Theorem populate_keeps_unconverted_field envMap typ s s' err j f :
  populateStruct envMap (PtrToStruct typ s) = (PtrToStruct typ s', err) ->
  typ !! j = Some f ->
  rawValue (resolveValue envMap (resolverOf f j)) = "" \/
  skippedType (reflect.FieldType f) = true ->
  s' !! j = s !! j.
Proof.
  rewrite populateStruct_struct. intros [= Hs He] Hj Hwhy.
  destruct (rangeFields_slot envMap typ 0 s j f Hj) as [_ Hany].
  simpl in Hany. rewrite Hs in Hany.
  destruct Hany as [Hany | Hany]; [done|]. rewrite Hany.
  assert ((populateField envMap f j s).1 = s) as ->; [|done].
  destruct Hwhy as [Hraw | Hskip].
  - unfold populateField. rewrite Hraw. simpl. by destruct (isRequired _).
  - unfold populateField. rewrite setValue_skippedType.
    + by repeat case_inner.
    + unfold fieldType. by rewrite resolveValue_field.
Qed.

(** ** The mapping is read at the fields' keys only *)

Lemma resolveValue_agree m1 m2 r :
  m1 !! reflect.Get (reflect.Tag (field r)) "env"
  = m2 !! reflect.Get (reflect.Tag (field r)) "env" ->
  resolveValue m1 r = resolveValue m2 r.
Proof. intros Heq. unfold resolveValue. by rewrite Heq. Qed.

Lemma rangeFields_agree m1 m2 fields : forall i s,
  agreeOn fields m1 m2 ->
  rangeFields m1 fields i s = rangeFields m2 fields i s.
Proof.
  induction fields as [|f rest IH]; intros i s Hag; simpl; [done|].
  assert (populateField m1 f i s = populateField m2 f i s) as ->.
  { unfold populateField. rewrite (resolveValue_agree m1 m2); [done|].
    apply Hag. by left. }
  destruct (populateField m2 f i s) as [s1 [e|]]; [done|].
  apply IH. intros g Hg. apply Hag. by right.
Qed.


(** X7.  An env file that cannot be read is no error of [LoadAndParse]:
    the warning is logged and the outcome is the one of a readable file
    that sets none of the struct's keys. *)
Theorem LoadAndParse_unreadable_file Read Read' path typ s m :
  Read path = None ->
  Read' path = Some m ->
  (forall f, f ∈ typ -> m !! reflect.Get (reflect.Tag f) "env" = None) ->
  LoadAndParse Read path (PtrToStruct typ s) =
  (true, (LoadAndParse Read' path (PtrToStruct typ s)).2).
Proof.
  intros Hnone Hsome Hkeys. unfold LoadAndParse. rewrite Hnone, Hsome. simpl.
  f_equal. rewrite !populateStruct_struct.
  rewrite (rangeFields_agree ∅ m typ 0 s); [done|].
  intros f Hf. rewrite Hkeys by done. apply lookup_empty.
Qed.

(** ** Errors *)

Lemma parsePair_errorField r valueKind p e :
  parsePair r valueKind p = Err e -> errorField e = Some (fieldName r).
Proof. unfold parsePair. repeat case_inner; by intros [= <-]. Qed.

Ltac slice_errorField :=
  let Hr := fresh in
  destruct (rangeParts _ _ _ _) eqn:Hr; intros [= <-];
  apply rangeParts_Err in Hr as (j & part & Hr);
  revert Hr; repeat case_inner; by intros [= <-].

Lemma setSlice_errorField r s e :
  (setSlice r s).2 = Some e -> errorField e = Some (fieldName r).
Proof.
  unfold setSlice.
  destruct (reflect.kind _); try discriminate;
    unfold setIntSlice, setUintSlice, setFloatSlice, setBoolSlice;
    simpl; slice_errorField.
Qed.

Lemma setMap_errorField r s e :
  (setMap r s).2 = Some e -> errorField e = Some (fieldName r).
Proof.
  unfold setMap. destruct (negb _); [discriminate|].
  destruct (rangePairs _ _ _ _) eqn:Hr; [discriminate|]. intros [= <-].
  apply rangePairs_Err in Hr as (p & _ & Hp).
  by eapply parsePair_errorField.
Qed.

Lemma setValue_errorField r s e :
  (setValue r s).2 = Some e -> errorField e = Some (fieldName r).
Proof.
  unfold setValue.
  destruct (reflect.kind _);
    eauto using setSlice_errorField, setMap_errorField; try discriminate;
    unfold setString, setIntOrDuration, setDuration, setInt, setUint, setFloat,
      setBool;
    repeat case_inner; simpl; try discriminate; by intros [= <-].
Qed.

Lemma populateField_errorField envMap f i s e :
  (populateField envMap f i s).2 = Some e ->
  errorField e = Some (reflect.FieldName f).
Proof.
  unfold populateField.
  destruct (_ && _); [by intros [= <-]|].
  destruct (String.eqb _ _); [discriminate|].
  intros He. apply setValue_errorField in He.
  unfold fieldName in He. by rewrite resolveValue_field in He.
Qed.

(** A loop that fails has run the fields before the failing one without an
    error, has failed in the step of that field, and has stored nothing
    from that field on. *)
Lemma rangeFields_fails envMap fields : forall i s s' e,
  rangeFields envMap fields i s = (s', Some e) ->
  exists pre f post,
    fields = (pre ++ f :: post)%list /\
    rangeFields envMap pre i s = (s', None) /\
    populateField envMap f (i + length pre) s' = (s', Some e) /\
    forall j, (i + length pre <= j)%nat -> s' !! j = s !! j.
Proof.
  induction fields as [|f rest IH]; intros i s s' e; simpl; [done|].
  pose proof (populateField_atomic envMap f i s) as Ha. unfold atomic in Ha.
  pose proof (populateField_other envMap f i s) as Ho.
  destruct (populateField envMap f i s) as [s1 [e1|]] eqn:Hp; simpl in *.
  - intros [= <- <-]. subst s1. exists [], f, rest. simpl.
    rewrite Nat.add_0_r. by rewrite Hp.
  - intros Hr. destruct (IH _ _ _ _ Hr) as (pre & g & post & -> & Hpre & Hg & Hfr).
    exists (f :: pre), g, post. simpl. rewrite Hp, Hpre.
    replace (i + S (length pre))%nat with (S i + length pre)%nat by lia.
    repeat split; [done|]. intros j Hj. rewrite Hfr by lia. apply Ho. lia.
Qed.

(** X8.  Populate is fail-fast without rollback.  When it returns an
    error, the struct type splits at a failing field: the fields declared
    before it were all processed without error and the struct holds
    exactly what they stored, the failing field's step on that struct
    returns the error, and every slot from the failing field on holds its
    prior value. *)
Theorem populate_stops_at_first_error envMap typ s s' e :
  populateStruct envMap (PtrToStruct typ s) = (PtrToStruct typ s', Some e) ->
  exists pre f post,
    typ = (pre ++ f :: post)%list /\
    populateStruct envMap (PtrToStruct pre s) = (PtrToStruct pre s', None) /\
    populateField envMap f (length pre) s' = (s', Some e) /\
    forall j, (length pre <= j)%nat -> s' !! j = s !! j.
Proof.
  rewrite populateStruct_struct. intros [= Hs He].
  destruct (rangeFields envMap typ 0 s) as [s1 r] eqn:Hrun. simpl in *. subst.
  destruct (rangeFields_fails _ _ _ _ _ _ Hrun) as (pre & f & post & -> & Hpre & Hf & Hfr).
  exists pre, f, post. rewrite populateStruct_struct, Hpre. done.
Qed.

(** X9.  The two target errors are returned for a target that is not a
    pointer to a struct, respectively not a pointer, before any field is
    looked at; every error returned for a pointer to a struct names one of
    the struct's fields. *)
Theorem populate_error_origin envMap target target' e :
  populateStruct envMap target = (target', Some e) ->
  match target with
  | NonPtr _ => e = errTargetMustBePointer /\ target' = target
  | PtrTo _ => e = errTargetMustBePointerToStruct /\ target' = target
  | PtrToStruct typ _ =>
      exists f, f ∈ typ /\ errorField e = Some (reflect.FieldName f)
  end.
Proof.
  destruct target as [typ s | k | k]; [| by intros [= <- <-]..].
  rewrite populateStruct_struct. intros [= _ He].
  destruct (rangeFields envMap typ 0 s) as [s1 r] eqn:Hrun. simpl in *. subst.
  destruct (rangeFields_fails _ _ _ _ _ _ Hrun) as (pre & f & post & -> & _ & Hf & _).
  exists f. split; [set_solver|].
  apply (populateField_errorField envMap f (0 + length pre) s1). by rewrite Hf.
Qed.

(** ** Integer literals *)

Lemma digit_range c d : strconv.digit c = Some d -> 0 <= d <= 9.
Proof.
  unfold strconv.digit.
  destruct (_ && _) eqn:Hb; [|done]. intros [= <-].
  apply andb_prop in Hb as [H1 H2]. lia.
Qed.

Lemma decimal_mono s : forall n m, 0 <= n <= m -> n <= decimal s n <= decimal s m.
Proof.
  induction s as [|c s IH]; intros n m Hnm; simpl; [lia|].
  destruct (strconv.digit c) as [d|] eqn:Hd; [|lia].
  apply digit_range in Hd.
  destruct (IH (n * 10 + d) (m * 10 + d)) as [H1 H2]; lia.
Qed.

(** On a string of digits the loop of [ParseUint] computes the number the
    digits denote, or reports that it exceeds [maxVal]. *)
Lemma parseDigits_allDigits s : forall maxVal n,
  allDigits s = true -> 0 <= n <= maxVal -> maxVal < 2 ^ 64 ->
  strconv.parseDigits s (strconv.maxUint64 / 10 + 1) maxVal n =
  if decimal s n <=? maxVal then (decimal s n, None)
  else (maxVal, Some strconv.ErrRange).
Proof.
  change (strconv.maxUint64 / 10 + 1) with 1844674407370955162.
  change (2 ^ 64) with 18446744073709551616.
  induction s as [|c s IH]; intros maxVal n Hall Hn Hmax; simpl in *.
  - destruct (Z.leb_spec n maxVal); [done | lia].
  - destruct (strconv.digit c) as [d|] eqn:Hd; [|done].
    pose proof (digit_range _ _ Hd) as Hdr.
    pose proof (decimal_mono s (n * 10 + d) (n * 10 + d)) as Hge.
    change (2 ^ 64) with 18446744073709551616.
    destruct (Z.leb_spec 1844674407370955162 n).
    { destruct (Z.leb_spec (decimal s (n * 10 + d)) maxVal); [lia | done]. }
    destruct (Z.lt_ge_cases (n * 10 + d) 18446744073709551616) as [Hsmall | Hbig].
    + rewrite Z.mod_small by lia.
      destruct (Z.ltb_spec (n * 10 + d) (n * 10)); [lia|]. simpl.
      destruct (Z.ltb_spec maxVal (n * 10 + d)).
      * destruct (Z.leb_spec (decimal s (n * 10 + d)) maxVal); [lia | done].
      * apply IH; [done | lia | done].
    + assert ((n * 10 + d) mod 18446744073709551616 < n * 10) as Hwrap
        by (Z.div_mod_to_equations; lia).
      destruct (Z.ltb_spec ((n * 10 + d) mod 18446744073709551616) (n * 10)); [|lia].
      simpl. destruct (Z.leb_spec (decimal s (n * 10 + d)) maxVal); [lia | done].
Qed.

Lemma parseDigits_nonDigit s : forall cutoff maxVal n,
  allDigits s = false ->
  exists v cause, strconv.parseDigits s cutoff maxVal n = (v, Some cause).
Proof.
  induction s as [|c s IH]; intros cutoff maxVal n Hall; simpl in *; [done|].
  destruct (strconv.digit c); [|eauto].
  destruct (_ <=? _); [eauto|]. destruct (_ || _); [eauto|]. by apply IH.
Qed.

Lemma ParseUint_allDigits s bits :
  s <> "" -> allDigits s = true -> 1 <= bits <= 64 ->
  strconv.ParseUint s bits =
  if decimal s 0 <=? 2 ^ bits - 1 then (decimal s 0, None)
  else (2 ^ bits - 1, Some strconv.ErrRange).
Proof.
  intros Hne Hall Hbits. unfold strconv.ParseUint.
  apply String.eqb_neq in Hne. rewrite Hne.
  destruct (Z.eqb_spec bits 0); [lia|].
  destruct (Z.ltb_spec bits 0); [lia|]. destruct (Z.ltb_spec 64 bits); [lia|]. simpl.
  apply parseDigits_allDigits; [done | |].
  - split; [lia|]. assert (2 ^ 1 <= 2 ^ bits) by (apply Z.pow_le_mono_r; lia). lia.
  - assert (2 ^ bits <= 2 ^ 64) by (apply Z.pow_le_mono_r; lia). lia.
Qed.

Lemma ParseUint_malformed s bits :
  s = "" \/ allDigits s = false ->
  exists v cause, strconv.ParseUint s bits = (v, Some cause).
Proof.
  intros Hbad. unfold strconv.ParseUint.
  destruct (String.eqb_spec s ""); [eauto|].
  destruct (_ || _); [eauto|].
  destruct Hbad as [-> | Hall]; [done|]. by apply parseDigits_nonDigit.
Qed.

Lemma uintKinds_bits t :
  reflect.kind t ∈ uintKinds -> reflect.Bits t ∈ [8; 16; 32; 64].
Proof.
  unfold reflect.Bits, uintKinds. intros Hk.
  repeat (apply elem_of_cons in Hk as [-> | Hk]; [set_solver|]).
  by apply elem_of_nil in Hk.
Qed.

(** X10.  An unsigned integer field accepts exactly the non-empty strings
    of decimal digits whose number fits its width, and then holds that
    number; a number that does not fit is a range error and anything else
    (the empty string, a sign, a blank, a letter) an error too, and on an
    error the struct is left as it was. *)
Theorem unsigned_field_exact r s :
  reflect.kind (fieldType r) ∈ uintKinds ->
  let bits := reflect.Bits (fieldType r) in
  let raw := rawValue r in
  (raw <> "" -> allDigits raw = true -> decimal raw 0 <= 2 ^ bits - 1 ->
   setValue r s = (<[value r := Scalar (SUint (decimal raw 0))]> s, None)) /\
  (raw <> "" -> allDigits raw = true -> 2 ^ bits - 1 < decimal raw 0 ->
   setValue r s = (s, Some (InvalidUint (fieldName r) strconv.ErrRange))) /\
  (raw = "" \/ allDigits raw = false ->
   exists cause, setValue r s = (s, Some (InvalidUint (fieldName r) cause))).
Proof.
  intros Hkind bits raw.
  assert (setValue r s = setUint r s) as ->.
  { unfold setValue, uintKinds in *.
    repeat (apply elem_of_cons in Hkind as [-> | Hkind]; [done|]).
    by apply elem_of_nil in Hkind. }
  assert (1 <= bits <= 64) as Hbits.
  { apply uintKinds_bits in Hkind. fold bits in Hkind.
    repeat (apply elem_of_cons in Hkind as [-> | Hkind]; [lia|]).
    by apply elem_of_nil in Hkind. }
  unfold setUint. fold bits raw. split; [|split].
  - intros Hne Hall Hfit. rewrite ParseUint_allDigits by done.
    destruct (Z.leb_spec (decimal raw 0) (2 ^ bits - 1)); [|lia].
    unfold Set_, SetUint, wrapUint. rewrite Z.mod_small; [done|].
    pose proof (decimal_mono raw 0 0). lia.
  - intros Hne Hall Hbig. rewrite ParseUint_allDigits by done.
    destruct (Z.leb_spec (decimal raw 0) (2 ^ bits - 1)); [lia | done].
  - intros Hbad. destruct (ParseUint_malformed raw bits Hbad) as (v & cause & ->).
    eauto.
Qed.

Ltac eval_pow :=
  repeat match goal with
         | |- context [Z.pow ?a ?b] =>
             let v := eval vm_compute in (Z.pow a b) in
             change (Z.pow a b) with v
         end.

Ltac case_compare :=
  repeat match goal with
         | |- context [Z.leb ?a ?b] => destruct (Z.leb_spec a b)
         | |- context [Z.ltb ?a ?b] => destruct (Z.ltb_spec a b)
         end.

(** On a signed decimal literal [ParseInt] returns the integer it denotes
    when it fits in [bits] bits, and a range error otherwise. *)
Lemma ParseInt_signedDecimal s bits n :
  bits ∈ [8; 16; 32; 64] -> signedDecimal s = Some n ->
  (- 2 ^ (bits - 1) <= n <= 2 ^ (bits - 1) - 1 ->
   strconv.ParseInt s bits = (n, None)) /\
  (n < - 2 ^ (bits - 1) \/ 2 ^ (bits - 1) - 1 < n ->
   exists v, strconv.ParseInt s bits = (v, Some strconv.ErrRange)).
Proof.
  intros Hbits Hsd. destruct s as [|c s']; [done|].
  unfold signedDecimal in Hsd. unfold strconv.ParseInt.
  destruct (if Ascii.eqb c "+" then _ else _) as [neg digits].
  destruct (allDigits digits && negb (String.eqb digits "")) eqn:Hok; [|done].
  injection Hsd as <-. apply andb_prop in Hok as [Hall Hne].
  apply negb_true_iff, String.eqb_neq in Hne.
  pose proof (decimal_mono digits 0 0) as Hpos.
  assert (1 <= bits <= 64) as Hb.
  { repeat (apply elem_of_cons in Hbits as [-> | Hbits]; [lia|]).
    by apply elem_of_nil in Hbits. }
  rewrite ParseUint_allDigits by done.
  repeat (apply elem_of_cons in Hbits as [-> | Hbits];
          [simpl; eval_pow; split; intros Hrange;
           destruct neg; case_compare; simpl; case_compare; simpl;
           try lia; eauto;
           f_equal; unfold strconv.int64; eval_pow; Z.div_mod_to_equations; lia|]).
  by apply elem_of_nil in Hbits.
Qed.

Lemma parseDigits_ErrRange s : forall cutoff maxVal n v,
  strconv.parseDigits s cutoff maxVal n = (v, Some strconv.ErrRange) -> v = maxVal.
Proof.
  induction s as [|c s IH]; intros cutoff maxVal n v; simpl; [done|].
  destruct (strconv.digit c); [|done].
  destruct (_ <=? _); [by intros [= <-]|].
  destruct (_ || _); [by intros [= <-] | apply IH].
Qed.

Lemma ParseInt_malformed s bits :
  bits ∈ [8; 16; 32; 64] -> signedDecimal s = None ->
  exists v cause, strconv.ParseInt s bits = (v, Some cause).
Proof.
  intros Hbits Hsd. destruct s as [|c s']; [simpl; eauto|].
  unfold signedDecimal in Hsd. unfold strconv.ParseInt.
  destruct (if Ascii.eqb c "+" then _ else _) as [neg digits].
  destruct (allDigits digits && negb (String.eqb digits "")) eqn:Hok; [done|].
  destruct (ParseUint_malformed digits bits) as (v & cause & Hu).
  { apply andb_false_iff in Hok as [Hall | Hne]; [by right | left].
    by apply negb_false_iff, String.eqb_eq in Hne. }
  rewrite Hu. destruct cause; [eauto | | eauto].
  assert (v = 2 ^ bits - 1) as ->.
  { revert Hu. unfold strconv.ParseUint.
    destruct (String.eqb digits ""); [done|].
    repeat (apply elem_of_cons in Hbits as [-> | Hbits];
            [simpl; apply parseDigits_ErrRange|]).
    by apply elem_of_nil in Hbits. }
  repeat (apply elem_of_cons in Hbits as [-> | Hbits];
          [simpl; eval_pow; destruct neg; case_compare; simpl; case_compare;
           simpl; try lia; eauto|]).
  by apply elem_of_nil in Hbits.
Qed.

Lemma intKinds_bits t :
  reflect.kind t ∈ intKinds -> reflect.Bits t ∈ [8; 16; 32; 64].
Proof.
  unfold reflect.Bits, intKinds. intros Hk.
  repeat (apply elem_of_cons in Hk as [-> | Hk]; [set_solver|]).
  by apply elem_of_nil in Hk.
Qed.

Lemma wrapInt_small bits n :
  bits ∈ [8; 16; 32; 64] ->
  - 2 ^ (bits - 1) <= n <= 2 ^ (bits - 1) - 1 -> wrapInt bits n = n.
Proof.
  intros Hbits. unfold wrapInt.
  repeat (apply elem_of_cons in Hbits as [-> | Hbits];
          [simpl; eval_pow; intros Hn; Z.div_mod_to_equations; lia|]).
  by apply elem_of_nil in Hbits.
Qed.

(** X11.  A signed integer field other than a duration accepts exactly
    the signed decimal literals (an optional '+' or '-', then digits) whose
    integer fits its width, and then holds that integer; an integer that
    does not fit is a range error and any other string an error too, and on
    an error the struct is left as it was. *)
Theorem signed_field_exact r s :
  reflect.kind (fieldType r) ∈ intKinds ->
  ~ (reflect.PkgPath (fieldType r) = "time" /\ reflect.Name (fieldType r) = "Duration") ->
  let bits := reflect.Bits (fieldType r) in
  match signedDecimal (rawValue r) with
  | Some n =>
      (- 2 ^ (bits - 1) <= n <= 2 ^ (bits - 1) - 1 ->
       setValue r s = (<[value r := Scalar (SInt n)]> s, None)) /\
      (n < - 2 ^ (bits - 1) \/ 2 ^ (bits - 1) - 1 < n ->
       setValue r s = (s, Some (InvalidInt (fieldName r) strconv.ErrRange)))
  | None => exists cause, setValue r s = (s, Some (InvalidInt (fieldName r) cause))
  end.
Proof.
  intros Hkind Hdur bits.
  assert (setValue r s = setInt r s) as ->.
  { assert (setValue r s = setIntOrDuration r s) as ->.
    { unfold setValue, intKinds in *.
      repeat (apply elem_of_cons in Hkind as [-> | Hkind]; [done|]).
      by apply elem_of_nil in Hkind. }
    unfold setIntOrDuration.
    destruct (String.eqb_spec (reflect.PkgPath (fieldType r)) "time");
      destruct (String.eqb_spec (reflect.Name (fieldType r)) "Duration");
      simpl; try done. exfalso. by apply Hdur. }
  apply intKinds_bits in Hkind. fold bits in Hkind.
  unfold setInt. fold bits.
  destruct (signedDecimal (rawValue r)) as [n|] eqn:Hsd.
  - destruct (ParseInt_signedDecimal _ bits n Hkind Hsd) as [Hfit Hbig]. split.
    + intros Hn. rewrite Hfit by done.
      unfold Set_, SetInt. by rewrite wrapInt_small.
    + intros Hn. by destruct (Hbig Hn) as [v ->].
  - destruct (ParseInt_malformed _ bits Hkind Hsd) as (v & cause & ->). eauto.
Qed.

(** ** Integer slices *)







(** ** Maps *)

Lemma rangePairs_first_error r valueKind pairs : forall result e,
  rangePairs r valueKind pairs result = Err e ->
  exists before pair_ after,
    pairs = (before ++ pair_ :: after)%list /\
    (forall p, p ∈ before -> exists kv, parsePair r valueKind p = Ok kv) /\
    parsePair r valueKind pair_ = Err e.
Proof.
  induction pairs as [|p rest IH]; intros result e; simpl; [done|].
  destruct (parsePair r valueKind p) as [[k v]|e'] eqn:Hp.
  - intros Hr. destruct (IH _ _ Hr) as (before & q & after & -> & Hbefore & Hq).
    exists (p :: before), q, after. split; [done|]. split; [|done].
    intros p' [-> | Hin]%elem_of_cons; eauto.
  - intros [= <-]. exists [], p, rest. split; [done|]. split; [|done].
    intros p' Hin. by apply elem_of_nil in Hin.
Qed.

Lemma rangePairs_Ok_all r valueKind pairs : forall result result',
  rangePairs r valueKind pairs result = Ok result' ->
  forall p, p ∈ pairs -> exists kv, parsePair r valueKind p = Ok kv.
Proof.
  induction pairs as [|q rest IH]; intros result result' Hr p Hin; simpl in *.
  - by apply elem_of_nil in Hin.
  - destruct (parsePair r valueKind q) as [[k v]|e] eqn:Hq; [|done].
    apply elem_of_cons in Hin as [-> | Hin]; [eauto|]. by eapply IH.
Qed.

Lemma setValue_map r s :
  reflect.kind (fieldType r) = reflect.Map ->
  reflect.kind (reflect.Key (fieldType r)) = reflect.String ->
  setValue r s =
  match rangePairs r (reflect.kind (reflect.Elem (fieldType r)))
          (gostrings.Split (rawValue r) ",") ∅ with
  | Err e => (s, Some e)
  | Ok result => (<[value r := MapV result]> s, None)
  end.
Proof.
  intros Hmap Hkey. unfold setValue. rewrite Hmap. unfold setMap. by rewrite Hkey.
Qed.

(** X14.  The conversion of a map with string keys is all or nothing over
    the pair tokens of the raw value (the texts between commas): it
    succeeds exactly when every token parses, and otherwise returns the
    error of the first token that does not.  A token without a ':', such as
    the empty token a trailing or doubled comma leaves, does not parse: its
    error is the map format error quoting the token. *)
Theorem map_conversion_outcome r s :
  reflect.kind (fieldType r) = reflect.Map ->
  reflect.kind (reflect.Key (fieldType r)) = reflect.String ->
  let valueKind := reflect.kind (reflect.Elem (fieldType r)) in
  let pairs := gostrings.Split (rawValue r) "," in
  ((exists s', setValue r s = (s', None)) <->
   (forall p, p ∈ pairs -> exists kv, parsePair r valueKind p = Ok kv)) /\
  (forall s' e, setValue r s = (s', Some e) ->
     exists before pair_ after,
       pairs = (before ++ pair_ :: after)%list /\
       (forall p, p ∈ before -> exists kv, parsePair r valueKind p = Ok kv) /\
       parsePair r valueKind pair_ = Err e) /\
  (forall p, gostrings.Cut (gostrings.TrimSpace p) ":" = None ->
     parsePair r valueKind p = Err (errInvalidMapFormat (fieldName r) p)).
Proof.
  intros Hmap Hkey valueKind pairs. rewrite setValue_map by done.
  fold valueKind pairs. split; [|split].
  - split.
    + intros [s' Hs]. destruct (rangePairs r valueKind pairs ∅) eqn:Hr; [|done].
      by eapply rangePairs_Ok_all.
    + intros Hall. destruct (rangePairs_total r valueKind pairs ∅ Hall) as [m ->]. eauto.
  - intros s' e Hs. destruct (rangePairs r valueKind pairs ∅) eqn:Hr; [done|].
    injection Hs as _ <-. by eapply rangePairs_first_error.
  - intros p Hcut. unfold parsePair, gostrings.SplitN2. by rewrite Hcut.
Qed.




(** ** What a success guarantees *)

Lemma rangeFields_success_steps envMap fields : forall i s s',
  rangeFields envMap fields i s = (s', None) ->
  forall k f t, fields !! k = Some f ->
    (populateField envMap f (i + k) t).2 = None.
Proof.
  induction fields as [|g rest IH]; intros i s s' Hrun k f t Hk; [done|].
  simpl in Hrun.
  destruct (populateField envMap g i s) as [s1 [e|]] eqn:Hp; [done|].
  destruct k as [|k]; simpl in Hk.
  - injection Hk as <-. rewrite Nat.add_0_r.
    rewrite (populateField_error_uniform envMap g i t s). by rewrite Hp.
  - replace (i + S k)%nat with (S i + k)%nat by lia. by eapply IH.
Qed.

(** X16.  After a successful populate every required field was given a
    value: it declares a source key, is writable, and either the mapping
    holds a non-empty value for the key or the key is absent and the
    default is not empty. *)
Theorem populate_success_supplies_required envMap typ s s' j f :
  populateStruct envMap (PtrToStruct typ s) = (PtrToStruct typ s', None) ->
  typ !! j = Some f ->
  reflect.Get (reflect.Tag f) "required" = "true" ->
  reflect.Get (reflect.Tag f) "env" <> "" /\
  reflect.FieldPkgPath f = "" /\
  match envMap !! reflect.Get (reflect.Tag f) "env" with
  | Some v => v <> ""
  | None => reflect.Get (reflect.Tag f) "default" <> ""
  end.
Proof.
  rewrite populateStruct_struct. intros [= Hs He] Hj Hreq.
  destruct (rangeFields envMap typ 0 s) as [s1 r] eqn:Hrun. simpl in *. subst.
  pose proof (rangeFields_success_steps _ _ _ _ _ Hrun j f s Hj) as Hstep.
  simpl in Hstep.
  assert (isRequired (resolverOf f j) = true) as Hr
    by (unfold isRequired; simpl; by apply String.eqb_eq).
  assert (rawValue (resolveValue envMap (resolverOf f j)) <> "") as Hraw.
  { intros Hraw. by rewrite populateField_missing in Hstep. }
  destruct (String.eqb_spec (reflect.Get (reflect.Tag f) "env") "") as [Hk | Hk].
  { exfalso. apply Hraw, resolveValue_skipped. by left. }
  destruct (String.eqb_spec (reflect.FieldPkgPath f) "") as [Hw | Hw].
  2: { exfalso. apply Hraw, resolveValue_skipped. right.
       unfold CanSet. simpl. by apply String.eqb_neq. }
  split; [done|]. split; [done|].
  rewrite resolveValue_keyed in Hraw; [| done | by apply CanSet_resolverOf].
  simpl in Hraw. by destruct (envMap !! _).
Qed.

End Further.

(** * Closed examples *)

#[local] Existing Instance noFloats.

(** Test_SliceProcessingBug: empty and blank parts of an integer slice are
    dropped. *)
Example populate_int_slices :
  populateStruct
    {[ "INT_SLICE_WITH_EMPTY" := "1,,3,4"; "INT_SLICE_WITH_SPACES" := "1, ,3" ]}
    (PtrToStruct sliceConfig [Nil; Nil])
  = (PtrToStruct sliceConfig [SliceV [SInt 1; SInt 3; SInt 4]; SliceV [SInt 1; SInt 3]],
     None).
Proof. vm_compute. reflexivity. Qed.



(** C2, at the input of the package documentation
    ([TAGS=frontend,,backend,mobile] into a [[]string]): the string branch
    of [setSlice] stores the trimmed parts without the filter of the typed
    branches, so the slice has four elements, one of them the empty
    string. *)
Theorem C2_string_slice_keeps_empty_parts :
  populateStruct {[ "TAGS" := "frontend,,backend,mobile" ]}
    (PtrToStruct [tagsField] [Nil])
  = (PtrToStruct [tagsField]
       [SliceV [SString "frontend"; SString ""; SString "backend"; SString "mobile"]],
     None).
Proof. vm_compute. reflexivity. Qed.

(** C3, counterexample.  [Groups] is a map with string keys and slice
    values; on a non-empty raw value populate returns an error. *)
Lemma C3_counterexample :
  scalarKind (reflect.kind (reflect.Elem (reflect.FieldType groupsField))) = false /\
  populateStruct {[ "GROUPS" := "a:1" ]} (PtrToStruct [groupsField] [Nil])
  = (PtrToStruct [groupsField] [Nil],
     Some (InvalidMapValue "Groups" "a" (errUnsupportedMapValueType reflect.Slice))).
Proof. split; vm_compute; reflexivity. Qed.

(** The theorem of C3 at [Groups] and the raw value "a:1". *)
Lemma C3_witness :
  reflect.kind (reflect.FieldType groupsField) = reflect.Map /\
  reflect.kind (reflect.Key (reflect.FieldType groupsField)) = reflect.String /\
  scalarKind (reflect.kind (reflect.Elem (reflect.FieldType groupsField))) = false /\
  rawValue (resolveValue {[ "GROUPS" := "a:1" ]} (resolverOf groupsField 0)) <> "" /\
  exists e, populateField {[ "GROUPS" := "a:1" ]} groupsField 0 [Nil] = ([Nil], Some e).
Proof.
  assert (rawValue (resolveValue {[ "GROUPS" := "a:1" ]} (resolverOf groupsField 0)) <> "")
    as Hraw by (vm_compute; discriminate).
  split; [reflexivity|]. split; [reflexivity|]. split; [reflexivity|].
  split; [exact Hraw|].
  destruct (C3_unsupported_map_value_fails {[ "GROUPS" := "a:1" ]} groupsField 0 [Nil]
              eq_refl eq_refl eq_refl Hraw) as (p & rest & _ & Hstep).
  eexists. exact Hstep.
Defined.

(** C4, at the inputs [LIMITS=cpu:256] into a [map[string]int8] and
    [QUOTAS=cpu:256] into a [map[string]uint8]: [convertMapValue] parses
    with a bit size of 64 and converts the result to the value type, so
    populate succeeds and the key is bound to 256 wrapped to 8 bits, 0. *)
Theorem C4_map_value_wraps_around :
  populateStruct {[ "LIMITS" := "cpu:256"; "QUOTAS" := "cpu:256" ]}
    (PtrToStruct [limitsField; quotasField] [Nil; Nil])
  = (PtrToStruct [limitsField; quotasField]
       [MapV {[ "cpu" := SInt 0 ]}; MapV {[ "cpu" := SUint 0 ]}],
     None).
Proof. vm_compute. reflexivity. Qed.

(** The theorem of C5 at [Region], whose key is mapped to the empty
    string: the default "eu" is not applied. *)
Lemma C5_witness :
  reflect.Get (reflect.Tag regionField) "env" <> "" /\
  reflect.FieldPkgPath regionField = "" /\
  ({[ "REGION" := "" ]} : gmap string string) !! reflect.Get (reflect.Tag regionField) "env"
    = Some "" /\
  populateField {[ "REGION" := "" ]} regionField 0 [Scalar (SString "")]
  = ([Scalar (SString "")], None).
Proof.
  assert (reflect.Get (reflect.Tag regionField) "env" <> "") as Hk by discriminate.
  assert (({[ "REGION" := "" ]} : gmap string string)
            !! reflect.Get (reflect.Tag regionField) "env" = Some "") as Hv
    by reflexivity.
  split; [exact Hk|]. split; [reflexivity|]. split; [exact Hv|].
  destruct (C5_present_key_beats_default {[ "REGION" := "" ]} regionField "" 0
              Hk eq_refl Hv) as [_ Hskip].
  exact (proj1 (Hskip eq_refl eq_refl [Scalar (SString "")] [])).
Defined.

(** The documented case of C6: a required field whose key is absent is
    satisfied by its default. *)
Example populate_required_with_default :
  populateStruct ∅ (PtrToStruct [appNameField] [Scalar (SString "")])
  = (PtrToStruct [appNameField] [Scalar (SString "MyApp")], None).
Proof. vm_compute. reflexivity. Qed.


(** Test_IntegerOverflowDetection: populate stops at the first field with
    the signed conversion error. *)
Example populate_overflow :
  populateStruct {[ "INT8_OVERFLOW" := "256"; "UINT8_OVERFLOW" := "256" ]}
    (PtrToStruct overflowConfig [Scalar (SInt 0); Scalar (SUint 0)])
  = (PtrToStruct overflowConfig [Scalar (SInt 0); Scalar (SUint 0)],
     Some (InvalidInt "Int8Field" strconv.ErrRange)).
Proof. vm_compute. reflexivity. Qed.

(** The theorem of C7 at the unsigned field of the test. *)
Lemma C7_witness :
  rawValue (resolved (exported "Uint8Field" tUint8 [("env", "UINT8_OVERFLOW")]) 0 "256")
    = "256" /\
  setValue (resolved (exported "Uint8Field" tUint8 [("env", "UINT8_OVERFLOW")]) 0 "256")
    [Scalar (SUint 0)]
  = ([Scalar (SUint 0)], Some (InvalidUint "Uint8Field" strconv.ErrRange)).
Proof.
  split; [reflexivity|].
  exact (proj2 (C7_eight_bit_overflow
                  (resolved (exported "Uint8Field" tUint8 [("env", "UINT8_OVERFLOW")]) 0 "256")
                  [Scalar (SUint 0)] eq_refl) eq_refl).
Defined.

(** Test_MapDuplicateKeyHandling. *)
Example populate_duplicate_keys :
  populateStruct {[ "SETTINGS_WITH_DUPLICATES" := "key1:value1,key1:value2,key2:value3" ]}
    (PtrToStruct [settingsField] [Nil])
  = (PtrToStruct [settingsField]
       [MapV {[ "key1" := SString "value2"; "key2" := SString "value3" ]}],
     None).
Proof. vm_compute. reflexivity. Qed.


(** The theorem of C9 at [Ports] and the raw value "1,x", whose second
    part is not an integer. *)
Lemma C9_witness :
  (reflect.kind (fieldType (resolved portsField 0 "1,x")) = reflect.Slice \/
   reflect.kind (fieldType (resolved portsField 0 "1,x")) = reflect.Map) /\
  setValue (resolved portsField 0 "1,x") [SliceV [SInt 7]]
  = ([SliceV [SInt 7]], Some (InvalidIntInSlice "Ports" 1 strconv.ErrSyntax)) /\
  [SliceV [SInt 7]] = [SliceV [SInt 7]].
Proof.
  assert (setValue (resolved portsField 0 "1,x") [SliceV [SInt 7]]
          = ([SliceV [SInt 7]], Some (InvalidIntInSlice "Ports" 1 strconv.ErrSyntax)))
    as Hset by reflexivity.
  assert (reflect.kind (fieldType (resolved portsField 0 "1,x")) = reflect.Slice \/
          reflect.kind (fieldType (resolved portsField 0 "1,x")) = reflect.Map)
    as Hkind by (left; reflexivity).
  split; [exact Hkind|]. split; [exact Hset|].
  exact (proj1 C9_collection_conversion_atomic _ _ _ _ Hkind Hset).
Defined.

(** The theorem of C10 at [Mode], whose required tag is "TRUE". *)
Lemma C10_witness :
  reflect.Get (reflect.Tag modeField) "required" <> "true" /\
  rawValue (resolveValue ∅ (resolverOf modeField 0)) = "" /\
  populateField ∅ modeField 0 [Scalar (SString "")] = ([Scalar (SString "")], None).
Proof.
  assert (reflect.Get (reflect.Tag modeField) "required" <> "true") as Hne by discriminate.
  split; [exact Hne|]. split; [reflexivity|].
  destruct C10_required_only_when_true as (_ & _ & _ & Hopt).
  exact (proj1 (Hopt ∅ modeField 0%nat [Scalar (SString "")] Hne) eq_refl).
Defined.

(** * Closed examples of the further properties *)

(** X2 at [AppName], declared after [Region], on the empty mapping. *)
Lemma populate_fields_independent_witness :
  populateStruct ∅ (PtrToStruct [regionField; appNameField]
                      [Scalar (SString ""); Scalar (SString "")])
  = (PtrToStruct [regionField; appNameField]
       [Scalar (SString "eu"); Scalar (SString "MyApp")], None) /\
  [regionField; appNameField] !! 1%nat = Some appNameField /\
  [Scalar (SString "eu"); Scalar (SString "MyApp")] !! 1%nat
  = (populateField ∅ appNameField 1 [Scalar (SString ""); Scalar (SString "")]).1 !! 1%nat.
Proof.
  assert (populateStruct ∅ (PtrToStruct [regionField; appNameField]
                              [Scalar (SString ""); Scalar (SString "")])
          = (PtrToStruct [regionField; appNameField]
               [Scalar (SString "eu"); Scalar (SString "MyApp")], None)) as Hrun
    by (vm_compute; reflexivity).
  split; [exact Hrun|]. split; [reflexivity|].
  exact (populate_fields_independent ∅ _ _ _ 1%nat appNameField Hrun eq_refl).
Defined.

(** X3 on the same struct. *)
Lemma populate_idempotent_witness :
  populateStruct ∅ (PtrToStruct [regionField; appNameField]
                      [Scalar (SString ""); Scalar (SString "")])
  = (PtrToStruct [regionField; appNameField]
       [Scalar (SString "eu"); Scalar (SString "MyApp")], None) /\
  populateStruct ∅ (PtrToStruct [regionField; appNameField]
                      [Scalar (SString "eu"); Scalar (SString "MyApp")])
  = (PtrToStruct [regionField; appNameField]
       [Scalar (SString "eu"); Scalar (SString "MyApp")], None).
Proof.
  assert (populateStruct ∅ (PtrToStruct [regionField; appNameField]
                              [Scalar (SString ""); Scalar (SString "")])
          = (PtrToStruct [regionField; appNameField]
               [Scalar (SString "eu"); Scalar (SString "MyApp")], None)) as Hrun
    by (vm_compute; reflexivity).
  split; [exact Hrun|].
  exact (populate_idempotent ∅ _ _ Hrun).
Defined.

(** X4 at [Nested], with a value supplied for its key. *)
Lemma unsupported_type_is_skipped_witness :
  skippedType (reflect.FieldType nestedField) = true /\
  populateField {[ "NESTED" := "x" ]} nestedField 0 [Nil] = ([Nil], None).
Proof.
  split; [reflexivity|].
  destruct (unsupported_type_is_skipped {[ "NESTED" := "x" ]} nestedField 0 [Nil]
              eq_refl) as (_ & _ & Hskip).
  apply Hskip. vm_compute. discriminate.
Defined.

(** X5 at [Nested], declared before a field that is converted. *)
Lemma populate_keeps_unconverted_field_witness :
  populateStruct {[ "NESTED" := "x" ]}
    (PtrToStruct [nestedField; regionField] [Nil; Scalar (SString "")])
  = (PtrToStruct [nestedField; regionField] [Nil; Scalar (SString "eu")], None) /\
  [nestedField; regionField] !! 0%nat = Some nestedField /\
  (rawValue (resolveValue {[ "NESTED" := "x" ]} (resolverOf nestedField 0)) = "" \/
   skippedType (reflect.FieldType nestedField) = true) /\
  [Nil; Scalar (SString "eu")] !! 0%nat = [Nil; Scalar (SString "")] !! 0%nat.
Proof.
  assert (populateStruct {[ "NESTED" := "x" ]}
            (PtrToStruct [nestedField; regionField] [Nil; Scalar (SString "")])
          = (PtrToStruct [nestedField; regionField] [Nil; Scalar (SString "eu")], None))
    as Hrun by (vm_compute; reflexivity).
  assert (rawValue (resolveValue {[ "NESTED" := "x" ]} (resolverOf nestedField 0)) = "" \/
          skippedType (reflect.FieldType nestedField) = true) as Hwhy
    by (right; reflexivity).
  split; [exact Hrun|]. split; [reflexivity|]. split; [exact Hwhy|].
  exact (populate_keeps_unconverted_field _ _ _ _ _ 0%nat nestedField Hrun eq_refl Hwhy).
Defined.


(** X7 with a reader that fails and one that finds an unrelated key. *)
Lemma LoadAndParse_unreadable_file_witness :
  (fun _ : string => @None (gmap string string)) ".env" = None /\
  (fun _ : string => Some ({[ "OTHER" := "x" ]} : gmap string string)) ".env"
  = Some {[ "OTHER" := "x" ]} /\
  LoadAndParse (fun _ => None) ".env" (PtrToStruct [regionField] [Scalar (SString "")])
  = (true, (PtrToStruct [regionField] [Scalar (SString "eu")], None)).
Proof.
  split; [reflexivity|]. split; [reflexivity|].
  rewrite (LoadAndParse_unreadable_file (fun _ => None)
             (fun _ => Some {[ "OTHER" := "x" ]}) ".env" [regionField]
             [Scalar (SString "")] {[ "OTHER" := "x" ]} eq_refl eq_refl).
  - reflexivity.
  - intros f Hf. apply list_elem_of_singleton in Hf. subst f. reflexivity.
Defined.

(** X8 on the struct of the example of C6: [APIKey] fails after [Region]
    has received its default. *)
Lemma populate_stops_at_first_error_witness :
  populateStruct ∅
    (PtrToStruct [regionField; apiKeyField; appNameField]
       [Scalar (SString ""); Scalar (SString ""); Scalar (SString "")])
  = (PtrToStruct [regionField; apiKeyField; appNameField]
       [Scalar (SString "eu"); Scalar (SString ""); Scalar (SString "")],
     Some (errMissingRequiredField "APIKey" "API_KEY")) /\
  exists pre f post,
    [regionField; apiKeyField; appNameField] = (pre ++ f :: post)%list /\
    populateStruct ∅ (PtrToStruct pre
                        [Scalar (SString ""); Scalar (SString ""); Scalar (SString "")])
    = (PtrToStruct pre
         [Scalar (SString "eu"); Scalar (SString ""); Scalar (SString "")], None).
Proof.
  assert (populateStruct ∅
            (PtrToStruct [regionField; apiKeyField; appNameField]
               [Scalar (SString ""); Scalar (SString ""); Scalar (SString "")])
          = (PtrToStruct [regionField; apiKeyField; appNameField]
               [Scalar (SString "eu"); Scalar (SString ""); Scalar (SString "")],
             Some (errMissingRequiredField "APIKey" "API_KEY"))) as Hrun
    by (vm_compute; reflexivity).
  split; [exact Hrun|].
  destruct (populate_stops_at_first_error _ _ _ _ _ Hrun)
    as (pre & f & post & Htyp & Hpre & _).
  exists pre, f, post. split; [exact Htyp | exact Hpre].
Defined.

(** X9 at a pointer to an [int]. *)
Lemma populate_error_origin_witness :
  populateStruct ∅ (PtrTo reflect.Int)
  = (PtrTo reflect.Int, Some errTargetMustBePointerToStruct) /\
  errTargetMustBePointerToStruct = errTargetMustBePointerToStruct.
Proof.
  assert (populateStruct ∅ (PtrTo reflect.Int)
          = (PtrTo reflect.Int, Some errTargetMustBePointerToStruct)) as Hrun
    by reflexivity.
  split; [exact Hrun|].
  exact (proj1 (populate_error_origin ∅ (PtrTo reflect.Int) _ _ Hrun)).
Defined.

(** X10 at an 8-bit field and the largest number it holds. *)
Lemma unsigned_field_exact_witness :
  reflect.kind (fieldType (resolved (exported "Uint8Field" tUint8 []) 0 "255")) ∈ uintKinds /\
  setValue (resolved (exported "Uint8Field" tUint8 []) 0 "255") [Scalar (SUint 0)]
  = ([Scalar (SUint 255)], None).
Proof.
  assert (reflect.kind (fieldType (resolved (exported "Uint8Field" tUint8 []) 0 "255"))
            ∈ uintKinds) as Hkind by (right; left).
  split; [exact Hkind|].
  destruct (unsigned_field_exact (resolved (exported "Uint8Field" tUint8 []) 0 "255")
              [Scalar (SUint 0)] Hkind) as (Hfit & _ & _).
  apply Hfit; [discriminate | reflexivity | vm_compute; discriminate].
Defined.

(** X11 at an 8-bit field and the least integer it holds. *)
Lemma signed_field_exact_witness :
  reflect.kind (fieldType (resolved (exported "Int8Field" tInt8 []) 0 "-128")) ∈ intKinds /\
  ~ (reflect.PkgPath (fieldType (resolved (exported "Int8Field" tInt8 []) 0 "-128")) = "time" /\
     reflect.Name (fieldType (resolved (exported "Int8Field" tInt8 []) 0 "-128")) = "Duration") /\
  setValue (resolved (exported "Int8Field" tInt8 []) 0 "-128") [Scalar (SInt 0)]
  = ([Scalar (SInt (-128))], None).
Proof.
  assert (reflect.kind (fieldType (resolved (exported "Int8Field" tInt8 []) 0 "-128"))
            ∈ intKinds) as Hkind by (right; left).
  assert (~ (reflect.PkgPath (fieldType (resolved (exported "Int8Field" tInt8 []) 0 "-128"))
             = "time" /\
             reflect.Name (fieldType (resolved (exported "Int8Field" tInt8 []) 0 "-128"))
             = "Duration")) as Hdur by (intros [Hp _]; discriminate Hp).
  split; [exact Hkind|]. split; [exact Hdur|].
  pose proof (signed_field_exact (resolved (exported "Int8Field" tInt8 []) 0 "-128")
                [Scalar (SInt 0)] Hkind Hdur) as Hx.
  simpl in Hx. destruct Hx as [Hfit _]. apply Hfit. vm_compute. split; discriminate.
Defined.



(** X14 at [Settings] and a raw value with a trailing comma. *)
Lemma map_conversion_outcome_witness :
  reflect.kind (fieldType (resolved settingsField 0 "a:1,")) = reflect.Map /\
  reflect.kind (reflect.Key (fieldType (resolved settingsField 0 "a:1,"))) = reflect.String /\
  parsePair (resolved settingsField 0 "a:1,") reflect.String ""
  = Err (errInvalidMapFormat "Settings" "").
Proof.
  split; [reflexivity|]. split; [reflexivity|].
  destruct (map_conversion_outcome (resolved settingsField 0 "a:1,") [Nil]
              eq_refl eq_refl) as (_ & _ & Hformat).
  exact (Hformat "" eq_refl).
Defined.


(** X16 at [AppName], required and satisfied by its default. *)
Lemma populate_success_supplies_required_witness :
  populateStruct ∅ (PtrToStruct [appNameField] [Scalar (SString "")])
  = (PtrToStruct [appNameField] [Scalar (SString "MyApp")], None) /\
  [appNameField] !! 0%nat = Some appNameField /\
  reflect.Get (reflect.Tag appNameField) "required" = "true" /\
  reflect.Get (reflect.Tag appNameField) "env" <> "".
Proof.
  assert (populateStruct ∅ (PtrToStruct [appNameField] [Scalar (SString "")])
          = (PtrToStruct [appNameField] [Scalar (SString "MyApp")], None)) as Hrun
    by (vm_compute; reflexivity).
  split; [exact Hrun|]. split; [reflexivity|]. split; [reflexivity|].
  exact (proj1 (populate_success_supplies_required _ _ _ _ 0%nat appNameField
                  Hrun eq_refl eq_refl)).
Defined.
